(** * InsuraPro CRM: the entity / data-access layer

    A shallow embedding of [include/interazione.h], [include/cliente.h],
    [include/crm.h], [errors/gestione_errori.cpp], [src/interazione.cpp],
    [src/cliente.cpp] and [src/crm.cpp], followed by the properties of the
    record model, of the pipe-delimited file format and of the operations of
    the store that the specification states.

    Conventions of the embedding.
    - [std::string] is [string]; a [char] is an [ascii].
    - [std::vector<T>] is [list T]; [push_back] appends at the end, [erase]
      at an index is stdpp's [delete], an assignment through [v[i]] is
      stdpp's [alter].
    - The [int] index that the lookups return is a [Z], [-1] when nothing is
      found.  The cast [(int)i] of a position is the identity: a collection
      never reaches [2^31] entries.
    - The methods of [CRM] that talk to the console take what the prompts
      return ([ottieniInputSicuro]) as arguments and return what they report
      as an [Esito] next to the new collection.
    - The two data files live in a [Mondo]: what a path holds when it can be
      opened for reading, and whether it can be opened for writing. *)

From Stdlib Require Import Ascii String ZArith Bool.
From stdpp Require Import list strings.

Local Open Scope Z_scope.
Local Open Scope nat_scope.
Local Open Scope stdpp_scope.

(** ** Characters and strings *)

Definition barra : ascii := "|"%char.
Definition a_capo : ascii := "010"%char.

(** [s += c] *)
Definition accoda (s : string) (c : ascii) : string := s +:+ String c "".

(** [s.empty()] *)
Definition vuota (s : string) : bool :=
  match s with
  | EmptyString => true
  | String _ _ => false
  end.

(** [::tolower] in the "C" locale (the program never calls [setlocale]):
    the 26 capital letters move to their small letter, every other character
    is left as it is. *)
Definition tolower (c : ascii) : ascii :=
  let n := nat_of_ascii c in
  if (65 <=? n) && (n <=? 90) then ascii_of_nat (n + 32) else c.

(** [transform(s.begin(), s.end(), s.begin(), ::tolower)] *)
Fixpoint minuscolo (s : string) : string :=
  match s with
  | EmptyString => EmptyString
  | String c r => String (tolower c) (minuscolo r)
  end.

(** Does [t] occur in [s] at position 0? *)
Fixpoint inizia_con (t s : string) : bool :=
  match t, s with
  | EmptyString, _ => true
  | String _ _, EmptyString => false
  | String a t', String b s' => Ascii.eqb a b && inizia_con t' s'
  end.

(** [s.find(t)]: the first position at which [t] occurs in [s], [None] for
    [string::npos].  The empty string occurs at position 0 of every
    string. *)
Fixpoint find (s t : string) : option nat :=
  if inizia_con t s then Some 0
  else match s with
       | EmptyString => None
       | String _ s' => S <$> find s' t
       end.

(** [s.find(t) != string::npos] *)
Definition trovata (s t : string) : bool :=
  match find s t with
  | Some _ => true
  | None => false
  end.

(** ** interazione.h, interazione.cpp *)

Inductive TipoInterazione : Set :=
  | APPUNTAMENTO
  | CONTRATTO
  | TELEFONATA
  | EMAIL
  | ALTRO.

Module Interazione.

Record t : Set := mk {
  data : string;
  ora : string;
  tipo : TipoInterazione;
  descrizione : string;
  agente : string;
  risultato : string
}.

(** [Interazione::getTipoStringa].  The final [return "Sconosciuto"] of
    the source is reached by no value of the enumeration. *)
Definition getTipoStringa (i : t) : string :=
  match tipo i with
  | APPUNTAMENTO => "Appuntamento"
  | CONTRATTO => "Contratto"
  | TELEFONATA => "Telefonata"
  | EMAIL => "Email"
  | ALTRO => "Altro"
  end.

(** [Interazione::contieneStringa] *)
Definition contieneStringa (i : t) (ricerca : string) : bool :=
  let ricercaLower := minuscolo ricerca in
  let descrizioneLower := minuscolo (descrizione i) in
  let agenteLower := minuscolo (agente i) in
  let risultatoLower := minuscolo (risultato i) in
  let tipoStringaLower := minuscolo (getTipoStringa i) in
  if trovata descrizioneLower ricercaLower then true
  else if trovata agenteLower ricercaLower then true
  else if trovata risultatoLower ricercaLower then true
  else if trovata tipoStringaLower ricercaLower then true
  else if trovata (data i) ricerca then true
  else if trovata (ora i) ricerca then true
  else false.

End Interazione.

(** ** cliente.h, cliente.cpp *)

Module Cliente.

Record t : Set := mk {
  nome : string;
  cognome : string;
  email : string;
  telefono : string;
  indirizzo : string;
  codiceFiscale : string;
  dataNascita : string;
  interazioni : list Interazione.t
}.

(** The parametric constructor: the seven strings, no interaction. *)
Definition nuovo (nome cognome email telefono indirizzo codiceFiscale
                  dataNascita : string) : t :=
  mk nome cognome email telefono indirizzo codiceFiscale dataNascita [].

Definition setNome (c : t) (n : string) : t :=
  mk n (cognome c) (email c) (telefono c) (indirizzo c)
     (codiceFiscale c) (dataNascita c) (interazioni c).
Definition setCognome (c : t) (n : string) : t :=
  mk (nome c) n (email c) (telefono c) (indirizzo c)
     (codiceFiscale c) (dataNascita c) (interazioni c).
Definition setEmail (c : t) (e : string) : t :=
  mk (nome c) (cognome c) e (telefono c) (indirizzo c)
     (codiceFiscale c) (dataNascita c) (interazioni c).
Definition setTelefono (c : t) (n : string) : t :=
  mk (nome c) (cognome c) (email c) n (indirizzo c)
     (codiceFiscale c) (dataNascita c) (interazioni c).
Definition setIndirizzo (c : t) (i : string) : t :=
  mk (nome c) (cognome c) (email c) (telefono c) i
     (codiceFiscale c) (dataNascita c) (interazioni c).
Definition setDataNascita (c : t) (dn : string) : t :=
  mk (nome c) (cognome c) (email c) (telefono c) (indirizzo c)
     (codiceFiscale c) dn (interazioni c).

(** [Cliente::aggiungiInterazione]: [interazioni.push_back(interazione)] *)
Definition aggiungiInterazione (i : Interazione.t) (c : t) : t :=
  mk (nome c) (cognome c) (email c) (telefono c) (indirizzo c)
     (codiceFiscale c) (dataNascita c) (interazioni c ++ [i]).

(** [Cliente::rimuoviInterazione]: the erase happens only for an index
    within the list, any other index leaves the customer as it is. *)
Definition rimuoviInterazione (indice : Z) (c : t) : t :=
  if ((0 <=? indice) && (indice <? Z.of_nat (length (interazioni c))))%Z
  then mk (nome c) (cognome c) (email c) (telefono c) (indirizzo c)
          (codiceFiscale c) (dataNascita c)
          (delete (Z.to_nat indice) (interazioni c))
  else c.

(** [Cliente::getNomeCompleto] *)
Definition getNomeCompleto (c : t) : string :=
  nome c +:+ " " +:+ cognome c.

(** [Cliente::contieneStringa] *)
Definition contieneStringa (c : t) (ricerca : string) : bool :=
  let ricercaLower := minuscolo ricerca in
  let nomeLower := minuscolo (nome c) in
  let cognomeLower := minuscolo (cognome c) in
  let emailLower := minuscolo (email c) in
  let telefonoLower := minuscolo (telefono c) in
  if trovata nomeLower ricercaLower then true
  else if trovata cognomeLower ricercaLower then true
  else if trovata emailLower ricercaLower then true
  else if trovata telefonoLower ricercaLower then true
  else if trovata (codiceFiscale c) ricerca then true
  else false.

End Cliente.

(** ** gestione_errori.cpp, crm.h, crm.cpp *)

(** What a method of [CRM] reports on the console. *)
Inductive Esito : Set :=
  | Successo
  | DuplicateKey       (* "Cliente con questo codice fiscale già presente!" *)
  | NotFound           (* "cliente non trovato!" *)
  | NessunCliente      (* "Nessun cliente presente nel sistema." *)
  | FormatoNonValido   (* "Formato data non valido!", "Formato ora non valido!" *)
  | Annullata.         (* "Operazione annullata." *)

(** The external world of the two [fstream]s: [leggi p] is what an
    [ifstream] on [p] delivers, [None] when it cannot be opened;
    [scrivibile p] tells whether an [ofstream] on [p] can be opened. *)
Record Mondo : Type := {
  leggi : string → option string;
  scrivibile : string → bool
}.

(** The file [p] after an [ofstream] on it has written [testo] and was
    closed. *)
Definition scrivi (m : Mondo) (p testo : string) : Mondo :=
  {| leggi := λ q, if String.eqb q p then Some testo else leggi m q;
     scrivibile := scrivibile m |}.

(** The loop shared, word for word, by [controllaEsistenzaCliente] and
    [CRM::trovaCliente(string)]: the first position, counted from [i], whose
    customer has the tax code, [-1] when the end is reached. *)
Fixpoint scansione (i : nat) (clienti : list Cliente.t) (codiceFiscale : string) : Z :=
  match clienti with
  | [] => (-1)%Z
  | c :: resto =>
      if String.eqb (Cliente.codiceFiscale c) codiceFiscale then Z.of_nat i
      else scansione (S i) resto codiceFiscale
  end.

Definition controllaEsistenzaCliente (clienti : list Cliente.t) (codiceFiscale : string) : Z :=
  scansione 0 clienti codiceFiscale.

Module CRM.

Definition nomeFileClienti : string := "data/clienti.txt".
Definition nomeFileInterazioni : string := "data/interazioni.txt".

(** [CRM::trovaCliente(string codiceFiscale)] *)
Definition trovaCliente (clienti : list Cliente.t) (codiceFiscale : string) : Z :=
  scansione 0 clienti codiceFiscale.

(** [CRM::trovaCliente(string nome, string cognome)] *)
Fixpoint trovaClienteNome_da (i : nat) (clienti : list Cliente.t) (nome cognome : string) : Z :=
  match clienti with
  | [] => (-1)%Z
  | c :: resto =>
      if String.eqb (Cliente.nome c) nome && String.eqb (Cliente.cognome c) cognome
      then Z.of_nat i
      else trovaClienteNome_da (S i) resto nome cognome
  end.
Definition trovaClienteNome := trovaClienteNome_da 0.

(** [isdigit] *)
Definition isdigit (c : ascii) : bool :=
  let n := nat_of_ascii c in (48 <=? n) && (n <=? 57).

(** The digit test of both validators: every position but the separators'
    holds a digit. *)
Fixpoint cifre_da (i : nat) (separatori : list nat) (s : string) : bool :=
  match s with
  | EmptyString => true
  | String c r =>
      (bool_decide (i ∈ separatori) || isdigit c) && cifre_da (S i) separatori r
  end.

(** [CRM::validaData] *)
Definition validaData (data : string) : bool :=
  if negb (String.length data =? 10) then false
  else if negb (bool_decide (String.get 2 data = Some "/"%char))
          || negb (bool_decide (String.get 5 data = Some "/"%char)) then false
  else cifre_da 0 [2; 5] data.

(** [CRM::validaOra] *)
Definition validaOra (ora : string) : bool :=
  if negb (String.length ora =? 5) then false
  else if negb (bool_decide (String.get 2 ora = Some ":"%char)) then false
  else cifre_da 0 [2] ora.

(** [CRM::aggiungiCliente], on the seven answers to its prompts. *)
Definition aggiungiCliente (clienti : list Cliente.t)
    (nome cognome email telefono indirizzo codiceFiscale dataNascita : string)
    : Esito * list Cliente.t :=
  if negb (trovaCliente clienti codiceFiscale =? -1)%Z then (DuplicateKey, clienti)
  else
    let nuovoCliente :=
      Cliente.nuovo nome cognome email telefono indirizzo codiceFiscale dataNascita in
    (Successo, clienti ++ [nuovoCliente]).

(** [CRM::modificaCliente], on the tax code and the six answers. *)
Definition modificaCliente (clienti : list Cliente.t)
    (codiceFiscale nuovoNome nuovoCognome nuovaEmail nuovoTelefono
     nuovoIndirizzo nuovaDataNascita : string) : Esito * list Cliente.t :=
  if bool_decide (clienti = []) then (NessunCliente, clienti)
  else
    let indice := controllaEsistenzaCliente clienti codiceFiscale in
    if (indice =? -1)%Z then (NotFound, clienti)
    else
      let k := Z.to_nat indice in
      let clienti :=
        if negb (vuota nuovoNome)
        then alter (λ c, Cliente.setNome c nuovoNome) k clienti else clienti in
      let clienti :=
        if negb (vuota nuovoCognome)
        then alter (λ c, Cliente.setCognome c nuovoCognome) k clienti else clienti in
      let clienti :=
        if negb (vuota nuovaEmail)
        then alter (λ c, Cliente.setEmail c nuovaEmail) k clienti else clienti in
      let clienti :=
        if negb (vuota nuovoTelefono)
        then alter (λ c, Cliente.setTelefono c nuovoTelefono) k clienti else clienti in
      let clienti :=
        if negb (vuota nuovoIndirizzo)
        then alter (λ c, Cliente.setIndirizzo c nuovoIndirizzo) k clienti else clienti in
      let clienti :=
        if negb (vuota nuovaDataNascita)
        then alter (λ c, Cliente.setDataNascita c nuovaDataNascita) k clienti else clienti in
      (Successo, clienti).

(** [CRM::eliminaCliente], on the tax code and the answer to "Sei sicuro?". *)
Definition eliminaCliente (clienti : list Cliente.t) (codiceFiscale conferma : string)
    : Esito * list Cliente.t :=
  if bool_decide (clienti = []) then (NessunCliente, clienti)
  else
    let indice := controllaEsistenzaCliente clienti codiceFiscale in
    if (indice =? -1)%Z then (NotFound, clienti)
    else if String.eqb conferma "si" || String.eqb conferma "SI" || String.eqb conferma "Si"
    then (Successo, delete (Z.to_nat indice) clienti)
    else (Annullata, clienti).

(** [CRM::cercaCliente]: the customers it prints, each with the number
    [i + 1] shown next to it. *)
Fixpoint cercaCliente_da (i : nat) (clienti : list Cliente.t) (ricerca : string)
    : list (nat * Cliente.t) :=
  match clienti with
  | [] => []
  | c :: resto =>
      if Cliente.contieneStringa c ricerca
      then (i + 1, c) :: cercaCliente_da (S i) resto ricerca
      else cercaCliente_da (S i) resto ricerca
  end.

Definition cercaCliente (clienti : list Cliente.t) (ricerca : string)
    : Esito * list (nat * Cliente.t) :=
  if bool_decide (clienti = []) then (NessunCliente, [])
  else (Successo, cercaCliente_da 0 clienti ricerca).

(** [CRM::aggiungiInterazione], on the tax code, the answers and the kind
    picked from the menu. *)
Definition aggiungiInterazione (clienti : list Cliente.t)
    (codiceFiscale data ora : string) (tipo : TipoInterazione)
    (descrizione agente risultato : string) : Esito * list Cliente.t :=
  if bool_decide (clienti = []) then (NessunCliente, clienti)
  else
    let indice := controllaEsistenzaCliente clienti codiceFiscale in
    if (indice =? -1)%Z then (NotFound, clienti)
    else if negb (validaData data) then (FormatoNonValido, clienti)
    else if negb (validaOra ora) then (FormatoNonValido, clienti)
    else
      let nuovaInterazione :=
        Interazione.mk data ora tipo descrizione agente risultato in
      (Successo,
       alter (Cliente.aggiungiInterazione nuovaInterazione) (Z.to_nat indice) clienti).

(** *** Saving *)

Definition nl : string := String a_capo "".

(** The line written for a customer, line feed included. *)
Definition rigaCliente (c : Cliente.t) : string :=
  Cliente.nome c +:+ "|" +:+ Cliente.cognome c +:+ "|" +:+ Cliente.email c +:+ "|"
  +:+ Cliente.telefono c +:+ "|" +:+ Cliente.indirizzo c +:+ "|"
  +:+ Cliente.codiceFiscale c +:+ "|" +:+ Cliente.dataNascita c +:+ nl.

(** The line written for an interaction of the customer with tax code
    [cf], line feed included. *)
Definition rigaInterazione (cf : string) (i : Interazione.t) : string :=
  cf +:+ "|" +:+ Interazione.data i +:+ "|" +:+ Interazione.ora i +:+ "|"
  +:+ Interazione.getTipoStringa i +:+ "|" +:+ Interazione.descrizione i +:+ "|"
  +:+ Interazione.agente i +:+ "|" +:+ Interazione.risultato i +:+ nl.

(** The inner loop of [salvaDati], on what [fileInterazioni] holds. *)
Fixpoint salvaInterazioni (cf : string) (interazioni : list Interazione.t)
    (fileInterazioni : string) : string :=
  match interazioni with
  | [] => fileInterazioni
  | i :: resto =>
      salvaInterazioni cf resto (fileInterazioni +:+ rigaInterazione cf i)
  end.

(** The outer loop of [salvaDati], on what the two streams hold. *)
Fixpoint salvaClienti (clienti : list Cliente.t) (fileClienti fileInterazioni : string)
    : string * string :=
  match clienti with
  | [] => (fileClienti, fileInterazioni)
  | cliente :: resto =>
      salvaClienti resto
        (fileClienti +:+ rigaCliente cliente)
        (salvaInterazioni (Cliente.codiceFiscale cliente)
           (Cliente.interazioni cliente) fileInterazioni)
  end.

(** [CRM::salvaDati].  Opening an [ofstream] empties the file, also when
    the other one then fails to open. *)
Definition salvaDati (m : Mondo) (clienti : list Cliente.t) : bool * Mondo :=
  let apertoClienti := scrivibile m nomeFileClienti in
  let apertoInterazioni := scrivibile m nomeFileInterazioni in
  let m := if apertoClienti then scrivi m nomeFileClienti "" else m in
  let m := if apertoInterazioni then scrivi m nomeFileInterazioni "" else m in
  if negb apertoClienti || negb apertoInterazioni then (false, m)
  else
    let '(fileClienti, fileInterazioni) := salvaClienti clienti "" "" in
    (true, scrivi (scrivi m nomeFileClienti fileClienti)
             nomeFileInterazioni fileInterazioni).

(** *** Loading *)

(** [getline(f, linea)] on what is left of the stream: [None] when nothing
    is left, else the characters up to the first line feed (or to the end)
    and what is left after it. *)
Fixpoint getline_ciclo (flusso linea : string) : string * string :=
  match flusso with
  | EmptyString => (linea, EmptyString)
  | String c resto =>
      if Ascii.eqb c a_capo then (linea, resto)
      else getline_ciclo resto (accoda linea c)
  end.

Definition getline (flusso : string) : option (string * string) :=
  match flusso with
  | EmptyString => None
  | String _ _ => Some (getline_ciclo flusso "")
  end.

(** The lines that [while (getline(f, linea))] goes through, [linea]
    being what the running [getline] has read so far. *)
Fixpoint righe_ciclo (flusso linea : string) : list string :=
  match flusso with
  | EmptyString => if vuota linea then [] else [linea]
  | String c resto =>
      if Ascii.eqb c a_capo then linea :: righe_ciclo resto ""
      else righe_ciclo resto (accoda linea c)
  end.

Definition righe (flusso : string) : list string := righe_ciclo flusso "".

(** The loop over the characters of a line, with its final [push_back]. *)
Fixpoint campi_ciclo (linea : string) (dati : list string) (campo : string)
    : list string :=
  match linea with
  | EmptyString => dati ++ [campo]
  | String c resto =>
      if Ascii.eqb c barra then campi_ciclo resto (dati ++ [campo]) ""
      else campi_ciclo resto dati (accoda campo c)
  end.

Definition campi (linea : string) : list string := campi_ciclo linea [] "".

(** The body of the first [while]: one line of the customer file. *)
Definition leggiCliente (clienti : list Cliente.t) (linea : string) : list Cliente.t :=
  if vuota linea then clienti
  else
    match campi linea with
    | [d0; d1; d2; d3; d4; d5; d6] =>
        clienti ++ [Cliente.nuovo d0 d1 d2 d3 d4 d5 d6]
    | _ => clienti
    end.

(** The chain of comparisons on [dati[3]]. *)
Definition decodificaTipo (s : string) : TipoInterazione :=
  if String.eqb s "Appuntamento" then APPUNTAMENTO
  else if String.eqb s "Contratto" then CONTRATTO
  else if String.eqb s "Telefonata" then TELEFONATA
  else if String.eqb s "Email" then EMAIL
  else if String.eqb s "Altro" then ALTRO
  else ALTRO.

(** The [for] with its [break]: the interaction goes to the first
    customer with the tax code. *)
Fixpoint collega (clienti : list Cliente.t) (codiceFiscale : string)
    (interazione : Interazione.t) : list Cliente.t :=
  match clienti with
  | [] => []
  | c :: resto =>
      if String.eqb (Cliente.codiceFiscale c) codiceFiscale
      then Cliente.aggiungiInterazione interazione c :: resto
      else c :: collega resto codiceFiscale interazione
  end.

(** The body of the second [while]: one line of the interaction file. *)
Definition leggiInterazione (clienti : list Cliente.t) (linea : string)
    : list Cliente.t :=
  if vuota linea then clienti
  else
    match campi linea with
    | [d0; d1; d2; d3; d4; d5; d6] =>
        collega clienti d0 (Interazione.mk d1 d2 (decodificaTipo d3) d4 d5 d6)
    | _ => clienti
    end.

(** [CRM::caricaDati] *)
Definition caricaDati (m : Mondo) (clienti : list Cliente.t) : bool * list Cliente.t :=
  match leggi m nomeFileClienti, leggi m nomeFileInterazioni with
  | Some fileClienti, Some fileInterazioni =>
      let clienti := [] in
      let clienti := fold_left leggiCliente (righe fileClienti) clienti in
      let clienti := fold_left leggiInterazione (righe fileInterazioni) clienti in
      (true, clienti)
  | _, _ => (false, clienti)
  end.

(** *** Searching the interactions *)

(** The inner loop of [CRM::cercaInterazioni] over the interactions of the
    customer [c]: what it prints for a match is the customer (by its full
    name), the number [j + 1] and the interaction. *)
Fixpoint cercaInterazioni_di (c : Cliente.t) (j : nat)
    (interazioni : list Interazione.t) (ricerca : string)
    : list (Cliente.t * nat * Interazione.t) :=
  match interazioni with
  | [] => []
  | x :: resto =>
      if Interazione.contieneStringa x ricerca
      then (c, j + 1, x) :: cercaInterazioni_di c (S j) resto ricerca
      else cercaInterazioni_di c (S j) resto ricerca
  end.

(** The outer loop of [CRM::cercaInterazioni]. *)
Fixpoint cercaInterazioni_da (clienti : list Cliente.t) (ricerca : string)
    : list (Cliente.t * nat * Interazione.t) :=
  match clienti with
  | [] => []
  | c :: resto =>
      cercaInterazioni_di c 0 (Cliente.interazioni c) ricerca
      ++ cercaInterazioni_da resto ricerca
  end.

(** [CRM::cercaInterazioni] *)
Definition cercaInterazioni (clienti : list Cliente.t) (ricerca : string)
    : Esito * list (Cliente.t * nat * Interazione.t) :=
  if bool_decide (clienti = []) then (NessunCliente, [])
  else (Successo, cercaInterazioni_da clienti ricerca).

(** *** Reading the console *)

(** [cin.ignore(numeric_limits<streamsize>::max(), '\n')] on what is left
    of [cin]: the characters up to the first line feed, and that line feed,
    are taken away; without a line feed nothing is left. *)
Fixpoint ignore (cin : string) : string :=
  match cin with
  | EmptyString => EmptyString
  | String c resto => if Ascii.eqb c a_capo then resto else ignore resto
  end.

(** [CRM::ottieniInputSicuro] on what is left of [cin]: the answer, and what
    is left after it.  A [getline] that fails leaves [input] empty. *)
Definition ottieniInputSicuro (cin : string) : string * string :=
  match getline (ignore cin) with
  | None => ("", "")
  | Some (input, resto) => (input, resto)
  end.

(** [CRM::aggiungiCliente] with its seven prompts, on what is left of
    [cin]. *)
Definition aggiungiCliente_cin (cin : string) (clienti : list Cliente.t)
    : Esito * list Cliente.t * string :=
  let '(nome, cin) := ottieniInputSicuro cin in
  let '(cognome, cin) := ottieniInputSicuro cin in
  let '(email, cin) := ottieniInputSicuro cin in
  let '(telefono, cin) := ottieniInputSicuro cin in
  let '(indirizzo, cin) := ottieniInputSicuro cin in
  let '(codiceFiscale, cin) := ottieniInputSicuro cin in
  let '(dataNascita, cin) := ottieniInputSicuro cin in
  (aggiungiCliente clienti nome cognome email telefono indirizzo codiceFiscale
     dataNascita, cin).

(** Modelled from the spec: [CRM::eliminaInterazione] is declared in
    [crm.h] and has no body in the sources.  The specification gives its
    contract: failure with NotFound when no customer has the tax code or
    when the position is outside the customer's list, else the removal at
    that position.  The lookup is the one every sibling method uses and the
    removal is [Cliente::rimuoviInterazione], both taken from the
    sources. *)
Definition eliminaInterazione (clienti : list Cliente.t) (codiceFiscale : string)
    (posizione : Z) : Esito * list Cliente.t :=
  let indice := controllaEsistenzaCliente clienti codiceFiscale in
  if (indice =? -1)%Z then (NotFound, clienti)
  else
    match clienti !! Z.to_nat indice with
    | None => (NotFound, clienti)
    | Some c =>
        if ((0 <=? posizione)
            && (posizione <? Z.of_nat (length (Cliente.interazioni c))))%Z
        then (Successo,
              alter (Cliente.rimuoviInterazione posizione) (Z.to_nat indice) clienti)
        else (NotFound, clienti)
    end.

End CRM.

(** ** Vocabulary of the statements *)

(** The character [c] does not occur in [s]. *)
Fixpoint senza (c : ascii) (s : string) : bool :=
  match s with
  | EmptyString => true
  | String a r => negb (Ascii.eqb a c) && senza c r
  end.

(** A field that the file format carries unharmed: no separator and no
    line feed in it. *)
Definition campo_pulito (s : string) : bool := senza barra s && senza a_capo s.

(** The fields joined by the separator, with no separator at the end. *)
Fixpoint unisci (dati : list string) : string :=
  match dati with
  | [] => ""
  | [d] => d
  | d :: resto => d +:+ "|" +:+ unisci resto
  end.

(** [t] occurs somewhere in [s]. *)
Definition sottostringa (t s : string) : Prop :=
  ∃ prima dopo, s = prima +:+ t +:+ dopo.

(** The customer as the customer file holds it: its seven strings. *)
Definition anagrafica (c : Cliente.t) : Cliente.t :=
  Cliente.nuovo (Cliente.nome c) (Cliente.cognome c) (Cliente.email c)
    (Cliente.telefono c) (Cliente.indirizzo c) (Cliente.codiceFiscale c)
    (Cliente.dataNascita c).

Definition interazione_pulita (i : Interazione.t) : bool :=
  campo_pulito (Interazione.data i) && campo_pulito (Interazione.ora i)
  && campo_pulito (Interazione.descrizione i) && campo_pulito (Interazione.agente i)
  && campo_pulito (Interazione.risultato i).

Definition cliente_pulito (c : Cliente.t) : bool :=
  campo_pulito (Cliente.nome c) && campo_pulito (Cliente.cognome c)
  && campo_pulito (Cliente.email c) && campo_pulito (Cliente.telefono c)
  && campo_pulito (Cliente.indirizzo c) && campo_pulito (Cliente.codiceFiscale c)
  && campo_pulito (Cliente.dataNascita c)
  && forallb interazione_pulita (Cliente.interazioni c).

(** No two customers of the collection have the same tax code. *)
Definition codici_distinti (clienti : list Cliente.t) : Prop :=
  NoDup (Cliente.codiceFiscale <$> clienti).

(** What [decodeCustomer] of the specification stands for in
    [CRM::leggiCliente]: the customer of a line with seven fields. *)
Definition clienteDiRiga (linea : string) : option Cliente.t :=
  match CRM.campi linea with
  | [d0; d1; d2; d3; d4; d5; d6] => Some (Cliente.nuovo d0 d1 d2 d3 d4 d5 d6)
  | _ => None
  end.

(** What [decodeInteraction] stands for in [CRM::leggiInterazione]: the tax
    code and the interaction of a line with seven fields. *)
Definition interazioneDiRiga (linea : string) : option (string * Interazione.t) :=
  match CRM.campi linea with
  | [d0; d1; d2; d3; d4; d5; d6] =>
      Some (d0, Interazione.mk d1 d2 (CRM.decodificaTipo d3) d4 d5 d6)
  | _ => None
  end.

(** The interactions, in file order, of the lines that name a tax code whose
    first holder in [clienti] sits at position [k]. *)
Definition interazioni_di (clienti : list Cliente.t) (k : nat)
    (coppie : list (string * Interazione.t)) : list Interazione.t :=
  snd <$> filter (λ p, CRM.trovaCliente clienti p.1 = Z.of_nat k) coppie.

(** [campo] put in front of the first field of [dati]. *)
Definition premetti (campo : string) (dati : list string) : list string :=
  match dati with
  | [] => [campo]
  | d :: resto => (campo +:+ d) :: resto
  end.

(** The customer with the interactions [nuove] added, in order, after its
    own. *)
Definition con_interazioni (nuove : list Interazione.t) (c : Cliente.t) : Cliente.t :=
  Cliente.mk (Cliente.nome c) (Cliente.cognome c) (Cliente.email c)
    (Cliente.telefono c) (Cliente.indirizzo c) (Cliente.codiceFiscale c)
    (Cliente.dataNascita c) (Cliente.interazioni c ++ nuove).

(** The value a field has after [modificaCliente] was given [nuovo] for it. *)
Definition aggiornato (vecchio nuovo : string) : string :=
  if vuota nuovo then vecchio else nuovo.

(** ** Sample data *)

Definition anna : Cliente.t :=
  Cliente.nuovo "Anna" "Rossi" "a@x.it" "000" "Via Roma" "RSSANN80A01H501Z" "01/01/1980".

Definition mario : Cliente.t :=
  Cliente.nuovo "Mario" "Bianchi" "m@y.it" "111" "Via Po" "BNCMRA75B02F205X" "02/02/1975".

Definition visita : Interazione.t :=
  Interazione.mk "01/06/2024" "10:00" APPUNTAMENTO "Checkup" "Luigi" "Booked".

Definition chiamata : Interazione.t :=
  Interazione.mk "02/06/2024" "11:30" TELEFONATA "Rinnovo" "Carla" "Da richiamare".

Definition firma : Interazione.t :=
  Interazione.mk "03/06/2024" "09:15" CONTRATTO "Polizza casa" "Luigi" "Firmato".

(** No file can be opened for reading; every file can be written. *)
Definition mondo_vuoto : Mondo :=
  {| leggi := λ _, None; scrivibile := λ _, true |}.

(** The two data files hold [fileClienti] and [fileInterazioni]. *)
Definition mondo_con (fileClienti fileInterazioni : string) : Mondo :=
  scrivi (scrivi mondo_vuoto CRM.nomeFileClienti fileClienti)
    CRM.nomeFileInterazioni fileInterazioni.

(** How many interactions the collection holds, all customers together. *)
Definition numero_interazioni (clienti : list Cliente.t) : nat :=
  sum_list ((λ c, length (Cliente.interazioni c)) <$> clienti).

(** A customer file with one line of seven fields and one of five. *)
Definition file_con_riga_corta : string :=
  "Anna|Rossi|a@x.it|000|Via Roma|RSSANN80A01H501Z|01/01/1980" +:+ CRM.nl
  +:+ "Luca|Verdi|l@z.it|222|Via Larga" +:+ CRM.nl.

(** The line of a customer and of an interaction, without the line feed. *)
Definition lineaCliente (c : Cliente.t) : string :=
  unisci [Cliente.nome c; Cliente.cognome c; Cliente.email c; Cliente.telefono c;
          Cliente.indirizzo c; Cliente.codiceFiscale c; Cliente.dataNascita c].

Definition lineaInterazione (cf : string) (i : Interazione.t) : string :=
  unisci [cf; Interazione.data i; Interazione.ora i; Interazione.getTipoStringa i;
          Interazione.descrizione i; Interazione.agente i; Interazione.risultato i].

(** What [salvaDati] writes: the lines of the customers, and the lines of
    the interactions, customer after customer. *)
Definition testoClienti (clienti : list Cliente.t) : string :=
  foldr (λ c testo, CRM.rigaCliente c +:+ testo) "" clienti.

Definition testoInterazioni (cf : string) (interazioni : list Interazione.t) : string :=
  foldr (λ i testo, CRM.rigaInterazione cf i +:+ testo) "" interazioni.

Definition testoTutteInterazioni (clienti : list Cliente.t) : string :=
  foldr (λ c testo,
           testoInterazioni (Cliente.codiceFiscale c) (Cliente.interazioni c)
           +:+ testo) "" clienti.

(** The tax code and interaction pairs of a collection, in saving order. *)
Definition coppie_di (clienti : list Cliente.t) : list (string * Interazione.t) :=
  clienti ≫= λ c, (λ i, (Cliente.codiceFiscale c, i)) <$> Cliente.interazioni c.

(** Two customers with their interactions, and one whose first name holds
    the separator. *)
Definition negozio : list Cliente.t :=
  [con_interazioni [visita] anna; con_interazioni [chiamata; firma] mario].

Definition cliente_con_barra : Cliente.t :=
  Cliente.nuovo "Anna|Maria" "Rossi" "a@x.it" "000" "Via Roma" "RSSANN80A01H501Z"
    "01/01/1980".

(** Two customers, and three interaction lines of which the second names a
    tax code that no customer has. *)
Definition file_due_clienti : string :=
  "Anna|Rossi|a@x.it|000|Via Roma|RSSANN80A01H501Z|01/01/1980" +:+ CRM.nl
  +:+ "Mario|Bianchi|m@y.it|111|Via Po|BNCMRA75B02F205X|02/02/1975" +:+ CRM.nl.

Definition file_tre_interazioni : string :=
  "BNCMRA75B02F205X|02/06/2024|11:30|Telefonata|Rinnovo|Carla|Da richiamare" +:+ CRM.nl
  +:+ "VRDLCU90C03L219K|03/06/2024|09:15|Contratto|Polizza casa|Luigi|Firmato" +:+ CRM.nl
  +:+ "RSSANN80A01H501Z|01/06/2024|10:00|Appuntamento|Checkup|Luigi|Booked" +:+ CRM.nl.

(** A customer file in which two lines carry the same tax code. *)
Definition file_codice_ripetuto : string :=
  "Anna|Rossi|a@x.it|000|Via Roma|RSSANN80A01H501Z|01/01/1980" +:+ CRM.nl
  +:+ "Anna|Russo|r@x.it|333|Via Milano|RSSANN80A01H501Z|01/01/1980" +:+ CRM.nl.

(** ** Vocabulary of the further properties *)

(** The stream with a line feed put at its end when it has characters and
    does not end in one. *)
Fixpoint chiusa (s : string) : string :=
  match s with
  | EmptyString => EmptyString
  | String c r =>
      match r with
      | EmptyString => if Ascii.eqb c a_capo then s else String c CRM.nl
      | String _ _ => String c (chiusa r)
      end
  end.

(** The lines written one after the other, each followed by a line feed. *)
Definition unisci_righe (ls : list string) : string :=
  foldr (λ l testo, l +:+ CRM.nl +:+ testo) "" ls.

(** Every customer that has interactions is the first of the collection
    with its tax code. *)
Definition titolari_primi (clienti : list Cliente.t) : Prop :=
  ∀ k c, clienti !! k = Some c → Cliente.interazioni c ≠ [] →
         CRM.trovaCliente clienti (Cliente.codiceFiscale c) = Z.of_nat k.

(** All the interactions of the collection, each with its customer and its
    number within the customer, counted from one. *)
Definition tutte_le_interazioni (clienti : list Cliente.t)
    : list (Cliente.t * nat * Interazione.t) :=
  clienti ≫= λ c, imap (λ j x, (c, j + 1, x)) (Cliente.interazioni c).

(** A collection in which two customers have the same tax code, the second
    of them without interactions. *)
Definition negozio_con_ripetuto : list Cliente.t :=
  [con_interazioni [visita] anna;
   Cliente.nuovo "Anna" "Russo" "r@x.it" "333" "Via Milano" "RSSANN80A01H501Z"
     "01/01/1980";
   con_interazioni [chiamata; firma] mario].

(** * Properties *)

(** ** Strings *)

Section Stringhe.

Lemma app_cons c (s t : string) : String c s +:+ t = String c (s +:+ t).
Proof. reflexivity. Qed.

Lemma app_vuota_l (s : string) : "" +:+ s = s.
Proof. reflexivity. Qed.

Lemma app_vuota_r (s : string) : s +:+ "" = s.
Proof. induction s as [|c s IH]; [reflexivity|]. rewrite app_cons, IH. reflexivity. Qed.

Lemma app_assoc_s (s t u : string) : (s +:+ t) +:+ u = s +:+ (t +:+ u).
Proof.
  induction s as [|c s IH]; [reflexivity|].
  rewrite !app_cons, IH. reflexivity.
Qed.

Lemma accoda_app (s : string) c (t : string) : accoda s c +:+ t = s +:+ String c t.
Proof. unfold accoda. rewrite app_assoc_s. reflexivity. Qed.

Lemma vuota_true (s : string) : vuota s = true ↔ s = "".
Proof. destruct s; simpl; split; congruence. Qed.

Lemma senza_app c (s t : string) : senza c (s +:+ t) = senza c s && senza c t.
Proof.
  induction s as [|a s IH]; [reflexivity|].
  rewrite app_cons. simpl. rewrite IH, andb_assoc. reflexivity.
Qed.

(** *** [find] and occurrence *)

Lemma inizia_con_spec (t s : string) :
  inizia_con t s = true ↔ ∃ dopo, s = t +:+ dopo.
Proof.
  revert s. induction t as [|a t IH]; intros s.
  - simpl. split; [intros _; exists s; reflexivity | reflexivity].
  - destruct s as [|b s]; simpl.
    + split; [discriminate | intros [d Hd]; rewrite app_cons in Hd; discriminate].
    + rewrite andb_true_iff, Ascii.eqb_eq, IH. split.
      * intros [-> [d ->]]. exists d. reflexivity.
      * intros [d Hd]. rewrite app_cons in Hd. injection Hd as -> ->. eauto.
Qed.

Lemma trovata_spec (s t : string) : trovata s t = true ↔ sottostringa t s.
Proof.
  unfold trovata, sottostringa. induction s as [|b s IH].
  - simpl. destruct (inizia_con t "") eqn:E.
    + split; [intros _ | reflexivity].
      apply inizia_con_spec in E as [d Hd]. exists "", d. exact Hd.
    + split; [discriminate|]. intros (p & d & H).
      destruct p as [|? ?]; [|rewrite app_cons in H; discriminate].
      rewrite app_vuota_l in H.
      assert (inizia_con t "" = true) by (apply inizia_con_spec; eauto).
      congruence.
  - simpl. destruct (inizia_con t (String b s)) eqn:E.
    + split; [intros _ | reflexivity].
      apply inizia_con_spec in E as [d Hd]. exists "", d. exact Hd.
    + destruct (find s t) as [n|] eqn:F; simpl.
      * split; [intros _ | reflexivity].
        destruct IH as [IH _]. destruct (IH eq_refl) as (p & d & ->).
        exists (String b p), d. reflexivity.
      * split; [discriminate|]. intros (p & d & H).
        destruct p as [|a p].
        -- rewrite app_vuota_l in H.
           assert (inizia_con t (String b s) = true)
             by (apply inizia_con_spec; eauto).
           congruence.
        -- rewrite app_cons in H. injection H as -> ->.
           destruct IH as [_ IH]. discriminate IH. eauto.
Qed.

(** [find] returns the first position of an occurrence. *)
Lemma find_Some (s t : string) n :
  find s t = Some n →
  ∃ prima dopo, s = prima +:+ t +:+ dopo ∧ String.length prima = n.
Proof.
  revert n. induction s as [|b s IH]; intros n; simpl.
  - destruct (inizia_con t "") eqn:E; [|discriminate].
    intros [= <-]. apply inizia_con_spec in E as [d Hd]. exists "", d. auto.
  - destruct (inizia_con t (String b s)) eqn:E.
    + intros [= <-]. apply inizia_con_spec in E as [d Hd]. exists "", d. auto.
    + destruct (find s t) as [m|]; simpl; [|discriminate].
      intros [= <-]. destruct (IH m eq_refl) as (p & d & -> & Hl).
      exists (String b p), d. simpl. auto.
Qed.

End Stringhe.

(** ** The line format: fields and lines *)

Section Formato.

Lemma campi_ciclo_premetti (linea : string) (dati : list string) (campo : string) :
  CRM.campi_ciclo linea dati campo = dati ++ premetti campo (CRM.campi linea).
Proof.
  unfold CRM.campi. revert dati campo.
  induction linea as [|c r IH]; intros dati campo; simpl.
  - rewrite app_vuota_r. reflexivity.
  - destruct (Ascii.eqb c barra).
    + rewrite (IH (dati ++ [campo]) ""), (IH [""] ""). simpl.
      rewrite app_vuota_r, <- app_assoc. reflexivity.
    + rewrite (IH dati (accoda campo c)), (IH [] (accoda "" c)). simpl.
      destruct (CRM.campi_ciclo r [] "") as [|d ds]; simpl.
      * reflexivity.
      * rewrite accoda_app. reflexivity.
Qed.

Lemma campi_non_vuoto (linea : string) : CRM.campi linea ≠ [].
Proof.
  intros H. pose proof (campi_ciclo_premetti linea [] "") as E.
  fold (CRM.campi linea) in E. rewrite H in E. discriminate.
Qed.

Lemma campi_vuota : CRM.campi "" = [""].
Proof. reflexivity. Qed.

Lemma campi_cons c (r : string) :
  CRM.campi (String c r) =
    if Ascii.eqb c barra then "" :: CRM.campi r
    else premetti (String c "") (CRM.campi r).
Proof.
  unfold CRM.campi at 1. simpl. destruct (Ascii.eqb c barra).
  - rewrite campi_ciclo_premetti. simpl.
    pose proof (campi_non_vuoto r).
    destruct (CRM.campi r); [congruence | reflexivity].
  - rewrite campi_ciclo_premetti. reflexivity.
Qed.

(** A field without separator, followed by a separator, is the first
    field of the line. *)
Lemma campi_campo_barra (d r : string) :
  senza barra d = true →
  CRM.campi (d +:+ String barra r) = d :: CRM.campi r.
Proof.
  induction d as [|c d IH]; intros H.
  - rewrite app_vuota_l, campi_cons. reflexivity.
  - simpl in H. apply andb_true_iff in H as [Hc Hd].
    rewrite app_cons, campi_cons.
    apply negb_true_iff in Hc. rewrite Hc, (IH Hd). reflexivity.
Qed.

Lemma campi_campo (d : string) : senza barra d = true → CRM.campi d = [d].
Proof.
  induction d as [|c d IH]; intros H; [reflexivity|].
  simpl in H. apply andb_true_iff in H as [Hc Hd].
  rewrite campi_cons. apply negb_true_iff in Hc. rewrite Hc, (IH Hd).
  reflexivity.
Qed.

(** Splitting undoes joining, for fields that hold no separator. *)
Lemma campi_unisci (dati : list string) :
  dati ≠ [] →
  Forall (λ d, senza barra d = true) dati →
  CRM.campi (unisci dati) = dati.
Proof.
  intros Hne H. induction H as [|d resto Hd Hresto IH]; [congruence|].
  destruct resto as [|d' resto'].
  - simpl. apply campi_campo, Hd.
  - change (unisci (d :: d' :: resto')) with (d +:+ String barra (unisci (d' :: resto'))).
    rewrite (campi_campo_barra _ _ Hd), IH; [reflexivity | discriminate].
Qed.

(** Joining undoes splitting, and no field of a split holds a
    separator. *)
Lemma unisci_campi (linea : string) : unisci (CRM.campi linea) = linea.
Proof.
  induction linea as [|c r IH]; [reflexivity|].
  rewrite campi_cons. destruct (Ascii.eqb_spec c barra) as [->|Hc].
  - pose proof (campi_non_vuoto r) as Hne.
    destruct (CRM.campi r) as [|d ds] eqn:E; [congruence|].
    change (unisci ("" :: d :: ds)) with ("" +:+ String barra (unisci (d :: ds))).
    rewrite IH. reflexivity.
  - pose proof (campi_non_vuoto r) as Hne.
    destruct (CRM.campi r) as [|d ds] eqn:E; [congruence|].
    simpl premetti. destruct ds as [|d' ds'].
    + simpl in *. rewrite app_cons, app_vuota_l, IH. reflexivity.
    + change (unisci (d :: d' :: ds')) with (d +:+ String barra (unisci (d' :: ds'))) in IH.
      change (unisci ((String c "" +:+ d) :: d' :: ds'))
        with ((String c "" +:+ d) +:+ String barra (unisci (d' :: ds'))).
      rewrite app_assoc_s, IH. reflexivity.
Qed.

Lemma campi_senza_barra (linea : string) :
  Forall (λ d, senza barra d = true) (CRM.campi linea).
Proof.
  induction linea as [|c r IH]; [repeat constructor|].
  rewrite campi_cons. destruct (Ascii.eqb c barra) eqn:Hc.
  - constructor; [reflexivity | exact IH].
  - destruct (CRM.campi r) as [|d ds]; simpl.
    + repeat constructor. simpl. rewrite Hc. reflexivity.
    + inversion IH; subst. constructor; [|assumption].
      rewrite app_cons, app_vuota_l. simpl. rewrite Hc. assumption.
Qed.

(** The split of a line is the one list of separator-free fields whose
    join is the line. *)
Lemma campi_spec (linea : string) (dati : list string) :
  CRM.campi linea = dati ↔
  dati ≠ [] ∧ Forall (λ d, senza barra d = true) dati ∧ unisci dati = linea.
Proof.
  split.
  - intros <-. split; [apply campi_non_vuoto|].
    split; [apply campi_senza_barra | apply unisci_campi].
  - intros (Hne & Hs & <-). apply campi_unisci; assumption.
Qed.

(** *** Lines *)

(** [righe] is the iteration of [getline] until it fails. *)
Lemma righe_ciclo_getline (flusso linea : string) :
  flusso ≠ "" ∨ linea ≠ "" →
  CRM.righe_ciclo flusso linea =
    let '(l, resto) := CRM.getline_ciclo flusso linea in l :: CRM.righe resto.
Proof.
  revert linea. induction flusso as [|c r IH]; intros linea H; simpl.
  - destruct H as [H|H]; [congruence|].
    destruct linea; [congruence | reflexivity].
  - destruct (Ascii.eqb c a_capo); [reflexivity|].
    apply IH. right. unfold accoda. destruct linea; discriminate.
Qed.

Lemma righe_getline (flusso : string) :
  CRM.righe flusso =
    match CRM.getline flusso with
    | None => []
    | Some (l, resto) => l :: CRM.righe resto
    end.
Proof.
  destruct flusso as [|c r]; [reflexivity|].
  unfold CRM.righe at 1, CRM.getline.
  apply righe_ciclo_getline. left. discriminate.
Qed.

(** A line without line feed, closed by a line feed, is the first line
    that is read. *)
Lemma righe_ciclo_riga (l resto linea : string) :
  senza a_capo l = true →
  CRM.righe_ciclo (l +:+ String a_capo resto) linea
  = (linea +:+ l) :: CRM.righe resto.
Proof.
  revert linea. induction l as [|c l IH]; intros linea H.
  - rewrite app_vuota_l, app_vuota_r. reflexivity.
  - simpl in H. apply andb_true_iff in H as [Hc Hl].
    apply negb_true_iff in Hc.
    rewrite app_cons. simpl. rewrite Hc, (IH _ Hl), accoda_app. reflexivity.
Qed.

Lemma righe_riga (l resto : string) :
  senza a_capo l = true →
  CRM.righe (l +:+ CRM.nl +:+ resto) = l :: CRM.righe resto.
Proof.
  intros H. unfold CRM.righe at 1, CRM.nl.
  rewrite app_cons, app_vuota_l. apply (righe_ciclo_riga l resto "" H).
Qed.

End Formato.

(** *** What the line reader keeps of the stream *)

Section Righe.

Lemma accoda_senza c (s : string) a :
  senza c s = true → Ascii.eqb a c = false → senza c (accoda s a) = true.
Proof.
  intros Hs Ha. unfold accoda. rewrite senza_app, Hs. simpl. rewrite Ha. reflexivity.
Qed.

Lemma righe_ciclo_senza (flusso linea : string) :
  senza a_capo linea = true →
  Forall (λ l, senza a_capo l = true) (CRM.righe_ciclo flusso linea).
Proof.
  revert linea. induction flusso as [|c r IH]; intros linea Hl; simpl.
  - destruct (vuota linea); repeat constructor. exact Hl.
  - destruct (Ascii.eqb c a_capo) eqn:E.
    + constructor; [exact Hl | apply IH; reflexivity].
    + apply IH, accoda_senza; assumption.
Qed.

Lemma righe_ciclo_unisci (flusso linea : string) :
  unisci_righe (CRM.righe_ciclo flusso linea)
  = match flusso with
    | EmptyString => if vuota linea then "" else linea +:+ CRM.nl
    | String _ _ => linea +:+ chiusa flusso
    end.
Proof.
  revert linea. induction flusso as [|c r IH]; intros linea.
  - simpl. destruct (vuota linea); [reflexivity|].
    unfold unisci_righe. simpl. rewrite app_vuota_r. reflexivity.
  - cbn [CRM.righe_ciclo]. destruct (Ascii.eqb_spec c a_capo) as [->|Hc].
    + change (unisci_righe (linea :: CRM.righe_ciclo r ""))
        with (linea +:+ CRM.nl +:+ unisci_righe (CRM.righe_ciclo r "")).
      rewrite (IH ""). destruct r as [|d r]; reflexivity.
    + rewrite (IH (accoda linea c)).
      assert (Hne : Ascii.eqb c a_capo = false) by (apply Ascii.eqb_neq, Hc).
      destruct r as [|d r].
      * unfold accoda. destruct linea; simpl; rewrite ?Hne, ?app_assoc_s;
          reflexivity.
      * rewrite accoda_app. reflexivity.
Qed.

Lemma righe_unisci (ls : list string) :
  Forall (λ l, senza a_capo l = true) ls → CRM.righe (unisci_righe ls) = ls.
Proof.
  induction 1 as [|l ls Hl _ IH]; [reflexivity|].
  change (unisci_righe (l :: ls)) with (l +:+ CRM.nl +:+ unisci_righe ls).
  rewrite (righe_riga _ _ Hl), IH. reflexivity.
Qed.

End Righe.

(** ** Lookup by tax code *)

Section Ricerca.

Implicit Types (clienti : list Cliente.t) (cf : string) (c : Cliente.t).

(** The scan finds nothing, or stops at the first customer with the tax
    code. *)
Lemma scansione_casi i clienti cf :
  (scansione i clienti cf = (-1)%Z
     ∧ ∀ c, c ∈ clienti → Cliente.codiceFiscale c ≠ cf)
  ∨ (∃ j c, scansione i clienti cf = Z.of_nat (i + j)
       ∧ clienti !! j = Some c ∧ Cliente.codiceFiscale c = cf
       ∧ ∀ j' c', clienti !! j' = Some c' → j' < j → Cliente.codiceFiscale c' ≠ cf).
Proof.
  revert i. induction clienti as [|c resto IH]; intros i; simpl.
  - left. split; [reflexivity|]. intros c Hc. inversion Hc.
  - destruct (String.eqb_spec (Cliente.codiceFiscale c) cf) as [E|E].
    + right. exists 0, c. rewrite Nat.add_0_r. repeat split; try done.
      intros j' c' _ Hlt. lia.
    + destruct (IH (S i)) as [[Hs Hn]|(j & c0 & Hs & Hl & Hc & Hmin)].
      * left. split; [exact Hs|].
        intros c' [->|Hin]%elem_of_cons; [exact E | apply Hn, Hin].
      * right. exists (S j), c0. repeat split; try done.
        -- rewrite Hs. f_equal. lia.
        -- intros [|j'] c' Hl' Hlt; simpl in Hl'.
           ++ injection Hl' as <-. exact E.
           ++ apply (Hmin j' c' Hl'). lia.
Qed.

Lemma scansione_intervallo i clienti cf :
  scansione i clienti cf = (-1)%Z
  ∨ (Z.of_nat i ≤ scansione i clienti cf < Z.of_nat (i + length clienti))%Z.
Proof.
  destruct (scansione_casi i clienti cf) as [[-> _]|(j & c & -> & Hl & _)].
  - left. reflexivity.
  - right. apply lookup_lt_Some in Hl. lia.
Qed.

(** The scan reads the tax codes only. *)
Lemma scansione_codici i clienti clienti' cf :
  Cliente.codiceFiscale <$> clienti = Cliente.codiceFiscale <$> clienti' →
  scansione i clienti cf = scansione i clienti' cf.
Proof.
  revert i clienti'. induction clienti as [|c resto IH]; intros i [|c' resto'] H;
    try discriminate; [reflexivity|].
  simpl in *. injection H as -> H. rewrite (IH (S i) resto' H). reflexivity.
Qed.

Lemma trovaCliente_assente clienti cf :
  CRM.trovaCliente clienti cf = (-1)%Z ↔
  ∀ c, c ∈ clienti → Cliente.codiceFiscale c ≠ cf.
Proof.
  unfold CRM.trovaCliente.
  destruct (scansione_casi 0 clienti cf) as [[Hs Hn]|(j & c & Hs & Hl & Hc & _)].
  - split; [intros _; exact Hn | intros _; exact Hs].
  - split; [rewrite Hs; lia|].
    intros Hn. exfalso. apply (Hn c); [|exact Hc].
    apply list_elem_of_lookup. eauto.
Qed.

(** The customer found is the first one, in the order of the collection,
    that has the tax code. *)
Lemma trovaCliente_primo clienti cf k :
  CRM.trovaCliente clienti cf = Z.of_nat k ↔
  ∃ c, clienti !! k = Some c ∧ Cliente.codiceFiscale c = cf
       ∧ ∀ j c', clienti !! j = Some c' → j < k → Cliente.codiceFiscale c' ≠ cf.
Proof.
  unfold CRM.trovaCliente.
  destruct (scansione_casi 0 clienti cf) as [[Hs Hn]|(j & c & Hs & Hl & Hc & Hmin)].
  - split; [rewrite Hs; lia|]. intros (c & Hl & Hc & _). exfalso.
    apply (Hn c); [|exact Hc]. apply list_elem_of_lookup. eauto.
  - rewrite Hs. simpl. split.
    + intros ->%Nat2Z.inj. eauto.
    + intros (c' & Hl' & Hc' & Hmin'). f_equal.
      destruct (Nat.lt_trichotomy j k) as [Hlt|[->|Hlt]]; [|reflexivity|].
      * exfalso. exact (Hmin' j c Hl Hlt Hc).
      * exfalso. exact (Hmin k c' Hl' Hlt Hc').
Qed.

(** With pairwise distinct tax codes, the customer found is the one
    holder of the code. *)
Lemma trovaCliente_distinti clienti cf k c :
  codici_distinti clienti →
  clienti !! k = Some c → Cliente.codiceFiscale c = cf →
  CRM.trovaCliente clienti cf = Z.of_nat k.
Proof.
  intros Hnd Hl Hc. apply trovaCliente_primo. exists c. repeat split; try done.
  intros j c' Hl' Hlt Hc'. unfold codici_distinti in Hnd.
  rewrite NoDup_alt in Hnd. assert (j = k); [|lia].
  apply (Hnd j k cf); rewrite list_lookup_fmap.
  - rewrite Hl'. simpl. congruence.
  - rewrite Hl. simpl. congruence.
Qed.

(** *** The attachment loop of [caricaDati] *)

Lemma collega_lookup_da i clienti cf x k :
  CRM.collega clienti cf x !! k =
    if decide (scansione i clienti cf = Z.of_nat (i + k))
    then Cliente.aggiungiInterazione x <$> clienti !! k
    else clienti !! k.
Proof.
  revert i k. induction clienti as [|c resto IH]; intros i k; simpl.
  - case_decide; reflexivity.
  - destruct (String.eqb (Cliente.codiceFiscale c) cf).
    + destruct k as [|k]; simpl.
      * rewrite decide_True by (f_equal; lia). reflexivity.
      * rewrite decide_False by lia. reflexivity.
    + destruct k as [|k]; simpl.
      * rewrite decide_False; [reflexivity|].
        destruct (scansione_intervallo (S i) resto cf); lia.
      * rewrite (IH (S i) k).
        repeat case_decide; try reflexivity; exfalso; lia.
Qed.

Lemma collega_lookup clienti cf x k :
  CRM.collega clienti cf x !! k =
    if decide (CRM.trovaCliente clienti cf = Z.of_nat k)
    then Cliente.aggiungiInterazione x <$> clienti !! k
    else clienti !! k.
Proof. apply (collega_lookup_da 0). Qed.

Lemma collega_codici clienti cf x :
  Cliente.codiceFiscale <$> CRM.collega clienti cf x
  = Cliente.codiceFiscale <$> clienti.
Proof.
  induction clienti as [|c resto IH]; simpl; [reflexivity|].
  destruct (String.eqb (Cliente.codiceFiscale c) cf); rewrite !fmap_cons;
    [reflexivity|].
  f_equal. exact IH.
Qed.

Lemma trovaCliente_collega clienti cf x cf' :
  CRM.trovaCliente (CRM.collega clienti cf x) cf' = CRM.trovaCliente clienti cf'.
Proof. apply scansione_codici, collega_codici. Qed.

End Ricerca.

(** ** Loading *)

Section Caricamento.

Implicit Types (clienti : list Cliente.t) (linea : string).

Local Ltac per_campi linea :=
  destruct (CRM.campi linea) as [|? [|? [|? [|? [|? [|? [|? [|? ?]]]]]]]].

Lemma clienteDiRiga_vuota linea : vuota linea = true → clienteDiRiga linea = None.
Proof. intros ->%vuota_true. reflexivity. Qed.

Lemma interazioneDiRiga_vuota linea :
  vuota linea = true → interazioneDiRiga linea = None.
Proof. intros ->%vuota_true. reflexivity. Qed.

Lemma leggiCliente_riga clienti linea :
  CRM.leggiCliente clienti linea =
    match clienteDiRiga linea with
    | Some c => clienti ++ [c]
    | None => clienti
    end.
Proof.
  unfold CRM.leggiCliente. destruct (vuota linea) eqn:E.
  - rewrite (clienteDiRiga_vuota _ E). reflexivity.
  - unfold clienteDiRiga. per_campi linea; reflexivity.
Qed.

Lemma leggiCliente_righe (ls : list string) clienti :
  fold_left CRM.leggiCliente ls clienti = clienti ++ omap clienteDiRiga ls.
Proof.
  revert clienti. induction ls as [|l ls IH]; intros clienti; simpl.
  - rewrite app_nil_r. reflexivity.
  - rewrite IH, leggiCliente_riga.
    destruct (clienteDiRiga l); simpl; [rewrite <- app_assoc|]; reflexivity.
Qed.

Lemma leggiInterazione_riga clienti linea :
  CRM.leggiInterazione clienti linea =
    match interazioneDiRiga linea with
    | Some (cf, x) => CRM.collega clienti cf x
    | None => clienti
    end.
Proof.
  unfold CRM.leggiInterazione. destruct (vuota linea) eqn:E.
  - rewrite (interazioneDiRiga_vuota _ E). reflexivity.
  - unfold interazioneDiRiga. per_campi linea; reflexivity.
Qed.

Lemma leggiInterazione_codici (ls : list string) clienti :
  Cliente.codiceFiscale <$> fold_left CRM.leggiInterazione ls clienti
  = Cliente.codiceFiscale <$> clienti.
Proof.
  revert clienti. induction ls as [|l ls IH]; intros clienti; simpl; [reflexivity|].
  rewrite IH, leggiInterazione_riga.
  destruct (interazioneDiRiga l) as [[cf x]|]; [apply collega_codici | reflexivity].
Qed.

Lemma con_interazioni_nil (c : Cliente.t) : con_interazioni [] c = c.
Proof. destruct c. unfold con_interazioni. simpl. rewrite app_nil_r. reflexivity. Qed.

Lemma con_interazioni_cons x l (c : Cliente.t) :
  con_interazioni l (Cliente.aggiungiInterazione x c) = con_interazioni (x :: l) c.
Proof.
  unfold con_interazioni, Cliente.aggiungiInterazione. simpl.
  rewrite <- app_assoc. reflexivity.
Qed.

(** Every customer ends up with the interactions of the lines that lead,
    by the scan, to its position: nothing else is added, nothing is
    lost among those. *)
Lemma leggiInterazione_righe (ls : list string) clienti k :
  fold_left CRM.leggiInterazione ls clienti !! k =
    con_interazioni (interazioni_di clienti k (omap interazioneDiRiga ls))
      <$> clienti !! k.
Proof.
  revert clienti. induction ls as [|l ls IH]; intros clienti; simpl.
  - unfold interazioni_di. simpl.
    destruct (clienti !! k) as [c|]; simpl; [|reflexivity].
    rewrite con_interazioni_nil. reflexivity.
  - rewrite IH, leggiInterazione_riga.
    destruct (interazioneDiRiga l) as [[cf x]|]; [|reflexivity].
    unfold interazioni_di. rewrite filter_cons. simpl.
    rewrite collega_lookup.
    rewrite (list_filter_iff
               (λ p, CRM.trovaCliente (CRM.collega clienti cf x) p.1 = Z.of_nat k)
               (λ p, CRM.trovaCliente clienti p.1 = Z.of_nat k))
      by (intros p; rewrite trovaCliente_collega; reflexivity).
    repeat case_decide; try congruence.
    + destruct (clienti !! k) as [c|]; simpl; [|reflexivity].
      rewrite con_interazioni_cons. reflexivity.
    + reflexivity.
Qed.

(** What [caricaDati] builds from the contents of the two files. *)
Lemma caricaDati_letti (m : Mondo) clienti (fileClienti fileInterazioni : string) :
  leggi m CRM.nomeFileClienti = Some fileClienti →
  leggi m CRM.nomeFileInterazioni = Some fileInterazioni →
  CRM.caricaDati m clienti =
    (true, fold_left CRM.leggiInterazione (CRM.righe fileInterazioni)
             (omap clienteDiRiga (CRM.righe fileClienti))).
Proof.
  intros Hc Hi. unfold CRM.caricaDati. rewrite Hc, Hi.
  rewrite leggiCliente_righe. reflexivity.
Qed.

End Caricamento.

(** ** Operations of the store *)

Section Operazioni.

Implicit Types (clienti : list Cliente.t) (cf : string) (c : Cliente.t).

Lemma controllaEsistenzaCliente_trovaCliente clienti cf :
  controllaEsistenzaCliente clienti cf = CRM.trovaCliente clienti cf.
Proof. reflexivity. Qed.

Lemma trovaCliente_presente clienti cf :
  (∃ c, c ∈ clienti ∧ Cliente.codiceFiscale c = cf) →
  ∃ k, CRM.trovaCliente clienti cf = Z.of_nat k.
Proof.
  intros (c & Hin & Hc). unfold CRM.trovaCliente.
  destruct (scansione_casi 0 clienti cf) as [[_ Hn]|(j & c' & Hs & _)].
  - exfalso. exact (Hn c Hin Hc).
  - exists j. exact Hs.
Qed.

Lemma alter_insert {A} (f : A → A) (l : list A) k x :
  l !! k = Some x → alter f k l = <[k := f x]> l.
Proof.
  intros H. apply list_eq. intros j. destruct (decide (k = j)) as [<-|Hne].
  - rewrite list_lookup_alter_eq, H.
    rewrite list_lookup_insert_eq by (eapply lookup_lt_Some; eauto). reflexivity.
  - rewrite list_lookup_alter_ne, list_lookup_insert_ne by done. reflexivity.
Qed.

Lemma aggiornato_non_vuoto (vecchio nuovo : string) :
  vecchio ≠ "" → aggiornato vecchio nuovo ≠ "".
Proof.
  intros H. unfold aggiornato. destruct nuovo; simpl; [exact H | discriminate].
Qed.

End Operazioni.

(** C3.  [aggiungiCliente] on a tax code that some customer of the collection
    already has reports DuplicateKey and leaves the collection as it was; on
    a tax code that no customer has it succeeds, and the new collection is
    the old one, unchanged and in its order, followed by the new customer. *)
Theorem aggiungiCliente_corretto (clienti : list Cliente.t)
    (nome cognome email telefono indirizzo codiceFiscale dataNascita : string) :
  ((∃ c, c ∈ clienti ∧ Cliente.codiceFiscale c = codiceFiscale) →
     CRM.aggiungiCliente clienti nome cognome email telefono indirizzo
       codiceFiscale dataNascita
     = (DuplicateKey, clienti))
  ∧ ((∀ c, c ∈ clienti → Cliente.codiceFiscale c ≠ codiceFiscale) →
     CRM.aggiungiCliente clienti nome cognome email telefono indirizzo
       codiceFiscale dataNascita
     = (Successo,
        clienti ++ [Cliente.nuovo nome cognome email telefono indirizzo
                      codiceFiscale dataNascita])).
Proof.
  unfold CRM.aggiungiCliente. split.
  - intros [k Hk]%trovaCliente_presente. rewrite Hk.
    destruct (Z.eqb_spec (Z.of_nat k) (-1)); [lia | reflexivity].
  - intros Hn%trovaCliente_assente. rewrite Hn. reflexivity.
Qed.

Lemma aggiungiCliente_esempio :
  CRM.aggiungiCliente [anna] "Anna" "Verdi" "" "" "" "RSSANN80A01H501Z" ""
    = (DuplicateKey, [anna])
  ∧ CRM.aggiungiCliente [anna] "Mario" "Bianchi" "m@y.it" "111" "Via Po"
      "BNCMRA75B02F205X" "02/02/1975"
    = (Successo, [anna; mario]).
Proof.
  split.
  - apply (proj1 (aggiungiCliente_corretto [anna] "Anna" "Verdi" "" "" ""
                    "RSSANN80A01H501Z" "")).
    exists anna. split; [apply list_elem_of_here | reflexivity].
  - apply (proj2 (aggiungiCliente_corretto [anna] "Mario" "Bianchi" "m@y.it" "111"
                    "Via Po" "BNCMRA75B02F205X" "02/02/1975")).
    intros c ->%list_elem_of_singleton. discriminate.
Defined.

(** C7.  When some customer has the tax code, [modificaCliente] succeeds and
    changes the first such customer only: each of the six fields first name,
    last name, e-mail, telephone, address and birth date takes the value
    given when that is not empty and keeps its value when it is empty; the
    tax code and the interactions of the customer stay, and so does every
    other customer.  A field that was not empty is not empty afterwards. *)
Theorem modificaCliente_corretto (clienti : list Cliente.t)
    (codiceFiscale nuovoNome nuovoCognome nuovaEmail nuovoTelefono
     nuovoIndirizzo nuovaDataNascita : string) :
  (∃ c, c ∈ clienti ∧ Cliente.codiceFiscale c = codiceFiscale) →
  ∃ k c c',
    clienti !! k = Some c ∧ Cliente.codiceFiscale c = codiceFiscale
    ∧ (∀ j d, clienti !! j = Some d → j < k → Cliente.codiceFiscale d ≠ codiceFiscale)
    ∧ c' = Cliente.mk (aggiornato (Cliente.nome c) nuovoNome)
             (aggiornato (Cliente.cognome c) nuovoCognome)
             (aggiornato (Cliente.email c) nuovaEmail)
             (aggiornato (Cliente.telefono c) nuovoTelefono)
             (aggiornato (Cliente.indirizzo c) nuovoIndirizzo)
             (Cliente.codiceFiscale c)
             (aggiornato (Cliente.dataNascita c) nuovaDataNascita)
             (Cliente.interazioni c)
    ∧ CRM.modificaCliente clienti codiceFiscale nuovoNome nuovoCognome nuovaEmail
        nuovoTelefono nuovoIndirizzo nuovaDataNascita
      = (Successo, <[k := c']> clienti)
    ∧ (∀ j, j ≠ k → <[k := c']> clienti !! j = clienti !! j)
    ∧ (∀ campo, campo ∈ [Cliente.nome; Cliente.cognome; Cliente.email;
                          Cliente.telefono; Cliente.indirizzo; Cliente.dataNascita] →
         campo c ≠ "" → campo c' ≠ "").
Proof.
  intros Hex. destruct (trovaCliente_presente _ _ Hex) as [k Hk].
  pose proof Hk as (c & Hl & Hc & Hmin)%trovaCliente_primo.
  eexists k, c, _. split; [exact Hl|]. split; [exact Hc|]. split; [exact Hmin|].
  split; [reflexivity|]. split; [|split].
  - unfold CRM.modificaCliente.
    rewrite bool_decide_eq_false_2
      by (intros ->; rewrite lookup_nil in Hl; discriminate).
    rewrite controllaEsistenzaCliente_trovaCliente, Hk.
    destruct (Z.eqb_spec (Z.of_nat k) (-1)); [lia|].
    rewrite Nat2Z.id. f_equal.
    apply list_eq. intros j. destruct (decide (k = j)) as [<-|Hne].
    + rewrite list_lookup_insert_eq by (eapply lookup_lt_Some; eauto).
      unfold aggiornato.
      destruct (vuota nuovoNome), (vuota nuovoCognome), (vuota nuovaEmail),
        (vuota nuovoTelefono), (vuota nuovoIndirizzo), (vuota nuovaDataNascita);
        simpl; rewrite ?list_lookup_alter_eq, Hl; destruct c; reflexivity.
    + rewrite list_lookup_insert_ne by done.
      destruct (vuota nuovoNome), (vuota nuovoCognome), (vuota nuovaEmail),
        (vuota nuovoTelefono), (vuota nuovoIndirizzo), (vuota nuovaDataNascita);
        simpl; rewrite ?list_lookup_alter_ne by done; reflexivity.
  - intros j Hne. apply list_lookup_insert_ne. congruence.
  - intros campo Hin Hnv.
    repeat (apply elem_of_cons in Hin as [->|Hin];
            [simpl; apply aggiornato_non_vuoto, Hnv|]).
    inversion Hin.
Qed.

Lemma modificaCliente_esempio :
  CRM.modificaCliente [anna; mario] "BNCMRA75B02F205X" "" "Neri" "" "222" "" ""
  = (Successo,
     [anna;
      Cliente.mk "Mario" "Neri" "m@y.it" "222" "Via Po" "BNCMRA75B02F205X"
        "02/02/1975" []]).
Proof.
  destruct (modificaCliente_corretto [anna; mario] "BNCMRA75B02F205X"
              "" "Neri" "" "222" "" "")
    as (k & c & c' & Hl & Hc & _ & -> & -> & _).
  - exists mario. split; [apply list_elem_of_further, list_elem_of_here | reflexivity].
  - destruct k as [|[|k]]; simpl in Hl; try discriminate;
      injection Hl as <-; [discriminate Hc | reflexivity].
Defined.

(** C9.  [eliminaInterazione] reports NotFound and changes nothing when no
    customer has the tax code, and when the position is outside the
    interaction list of the (first) customer that has it; otherwise it
    succeeds and changes that customer only, whose seven strings stay and
    whose list loses the interaction at the position: the interactions
    before it keep their positions, those after it move down by one. *)
Theorem eliminaInterazione_corretto (clienti : list Cliente.t)
    (codiceFiscale : string) (posizione : Z) :
  ((∀ c, c ∈ clienti → Cliente.codiceFiscale c ≠ codiceFiscale) →
     CRM.eliminaInterazione clienti codiceFiscale posizione = (NotFound, clienti))
  ∧ (∀ k c,
       CRM.trovaCliente clienti codiceFiscale = Z.of_nat k →
       clienti !! k = Some c →
       (¬ (0 ≤ posizione < Z.of_nat (length (Cliente.interazioni c)))%Z →
          CRM.eliminaInterazione clienti codiceFiscale posizione
          = (NotFound, clienti)
          ∧ Cliente.rimuoviInterazione posizione c = c)
       ∧ ((0 ≤ posizione < Z.of_nat (length (Cliente.interazioni c)))%Z →
          ∃ c',
            CRM.eliminaInterazione clienti codiceFiscale posizione
            = (Successo, <[k := c']> clienti)
            ∧ anagrafica c' = anagrafica c
            ∧ S (length (Cliente.interazioni c')) = length (Cliente.interazioni c)
            ∧ (∀ j, j < Z.to_nat posizione →
                 Cliente.interazioni c' !! j = Cliente.interazioni c !! j)
            ∧ (∀ j, Z.to_nat posizione ≤ j →
                 Cliente.interazioni c' !! j = Cliente.interazioni c !! S j)
            ∧ (∀ j, j ≠ k → <[k := c']> clienti !! j = clienti !! j))).
Proof.
  unfold CRM.eliminaInterazione.
  rewrite controllaEsistenzaCliente_trovaCliente. split.
  - intros Hn%trovaCliente_assente. rewrite Hn. reflexivity.
  - intros k c Hk Hl. rewrite Hk.
    destruct (Z.eqb_spec (Z.of_nat k) (-1)); [lia|].
    rewrite Nat2Z.id, Hl. split.
    + intros Hout. unfold Cliente.rimuoviInterazione.
      destruct (0 <=? posizione)%Z eqn:E1; simpl; [|split; reflexivity].
      destruct (posizione <? Z.of_nat (length (Cliente.interazioni c)))%Z eqn:E2;
        [|split; reflexivity].
      exfalso. apply Hout. lia.
    + intros [H0 H1].
      assert (E : ((0 <=? posizione)
                   && (posizione <? Z.of_nat (length (Cliente.interazioni c))))%Z
                  = true).
      { apply andb_true_iff. split; [apply Z.leb_le | apply Z.ltb_lt]; assumption. }
      rewrite E. exists (Cliente.rimuoviInterazione posizione c).
      split; [rewrite (alter_insert _ _ _ _ Hl); reflexivity|].
      unfold Cliente.rimuoviInterazione. rewrite E. simpl.
      split; [reflexivity|]. split; [|split; [|split]].
      * rewrite length_delete by (apply lookup_lt_is_Some; lia). lia.
      * intros j Hj. apply list_lookup_delete_lt, Hj.
      * intros j Hj. apply list_lookup_delete_ge, Hj.
      * intros j Hj. apply list_lookup_insert_ne. congruence.
Qed.

Lemma eliminaInterazione_esempio :
  CRM.eliminaInterazione
    [anna; con_interazioni [visita; chiamata; firma] mario] "BNCMRA75B02F205X" 1
  = (Successo, [anna; con_interazioni [visita; firma] mario])
  ∧ CRM.eliminaInterazione
      [anna; con_interazioni [visita; chiamata; firma] mario] "BNCMRA75B02F205X" 3
    = (NotFound, [anna; con_interazioni [visita; chiamata; firma] mario])
  ∧ CRM.eliminaInterazione
      [anna; con_interazioni [visita; chiamata; firma] mario] "VRDLGU" 0
    = (NotFound, [anna; con_interazioni [visita; chiamata; firma] mario]).
Proof.
  pose (archivio := [anna; con_interazioni [visita; chiamata; firma] mario]).
  assert (Hk : CRM.trovaCliente archivio "BNCMRA75B02F205X" = Z.of_nat 1)
    by reflexivity.
  assert (Hl : archivio !! 1 = Some (con_interazioni [visita; chiamata; firma] mario))
    by reflexivity.
  split; [|split].
  - destruct (proj2 (proj2 (eliminaInterazione_corretto archivio "BNCMRA75B02F205X" 1)
                       1 _ Hk Hl))
      as (c' & _ & _); [simpl; lia|]. reflexivity.
  - apply (proj1 (proj2 (eliminaInterazione_corretto archivio "BNCMRA75B02F205X" 3)
                    1 _ Hk Hl)).
    simpl. lia.
  - apply (proj1 (eliminaInterazione_corretto archivio "VRDLGU" 0)).
    intros c [->|[->|[]%elem_of_nil]%elem_of_cons]%elem_of_cons; discriminate.
Defined.

(** C10.  When the customer file or the interaction file cannot be opened
    for reading, [caricaDati] returns [false] and the collection in memory is
    the one before the call; when both can be opened it returns [true]. *)
Theorem caricaDati_non_aperto (m : Mondo) (clienti : list Cliente.t) :
  (leggi m CRM.nomeFileClienti = None ∨ leggi m CRM.nomeFileInterazioni = None →
     CRM.caricaDati m clienti = (false, clienti))
  ∧ (is_Some (leggi m CRM.nomeFileClienti)
     ∧ is_Some (leggi m CRM.nomeFileInterazioni) →
     (CRM.caricaDati m clienti).1 = true).
Proof.
  unfold CRM.caricaDati. split.
  - intros [H|H]; rewrite H; [reflexivity|].
    destruct (leggi m CRM.nomeFileClienti); reflexivity.
  - intros [[fc ->] [fi ->]]. reflexivity.
Qed.

Lemma caricaDati_non_aperto_esempio :
  CRM.caricaDati mondo_vuoto [anna; mario] = (false, [anna; mario])
  ∧ CRM.caricaDati (scrivi mondo_vuoto CRM.nomeFileClienti "x|y") [anna; mario]
    = (false, [anna; mario]).
Proof.
  split.
  - apply (proj1 (caricaDati_non_aperto mondo_vuoto [anna; mario])).
    left. reflexivity.
  - apply (proj1 (caricaDati_non_aperto
                    (scrivi mondo_vuoto CRM.nomeFileClienti "x|y") [anna; mario])).
    right. reflexivity.
Defined.

(** ** The kind of an interaction *)

(** C8, as the specification words it: the display strings would be the
    English words.  The table of the code does not know them: each of them
    decodes to [ALTRO], and the string written for an appointment is not
    "Appointment". *)
Lemma decodificaTipo_inglese :
  CRM.decodificaTipo "Appointment" = ALTRO
  ∧ CRM.decodificaTipo "Appointment" ≠ APPUNTAMENTO
  ∧ CRM.decodificaTipo "Contract" ≠ CONTRATTO
  ∧ CRM.decodificaTipo "Call" ≠ TELEFONATA
  ∧ Interazione.getTipoStringa visita ≠ "Appointment"
  ∧ (interazioneDiRiga "CF|01/06/2024|10:00|Appointment|Checkup|Luigi|Booked"
     = Some ("CF", Interazione.mk "01/06/2024" "10:00" ALTRO "Checkup" "Luigi" "Booked")).
Proof. repeat split; discriminate. Qed.

(** C8, amended.  The kind field of an interaction line is decoded by a
    fixed, case-sensitive table whose strings are "Appuntamento",
    "Contratto", "Telefonata", "Email" and "Altro"; every other string
    decodes to [ALTRO], without error; and the string written for a kind
    decodes to that kind. *)
Theorem decodificaTipo_corretto (s : string) (i : Interazione.t)
    (clienti : list Cliente.t) (d0 d1 d2 d4 d5 d6 : string) :
  (CRM.decodificaTipo s = APPUNTAMENTO ↔ s = "Appuntamento")
  ∧ (CRM.decodificaTipo s = CONTRATTO ↔ s = "Contratto")
  ∧ (CRM.decodificaTipo s = TELEFONATA ↔ s = "Telefonata")
  ∧ (CRM.decodificaTipo s = EMAIL ↔ s = "Email")
  ∧ (CRM.decodificaTipo s = ALTRO ↔
       s ≠ "Appuntamento" ∧ s ≠ "Contratto" ∧ s ≠ "Telefonata" ∧ s ≠ "Email")
  ∧ CRM.decodificaTipo "Altro" = ALTRO
  ∧ CRM.decodificaTipo "appuntamento" = ALTRO
  ∧ CRM.decodificaTipo "EMAIL" = ALTRO
  ∧ CRM.decodificaTipo (Interazione.getTipoStringa i) = Interazione.tipo i
  ∧ (∀ linea, CRM.campi linea = [d0; d1; d2; s; d4; d5; d6] →
       CRM.leggiInterazione clienti linea
       = CRM.collega clienti d0
           (Interazione.mk d1 d2 (CRM.decodificaTipo s) d4 d5 d6)).
Proof.
  assert (Htab :
    (CRM.decodificaTipo s = APPUNTAMENTO ↔ s = "Appuntamento")
    ∧ (CRM.decodificaTipo s = CONTRATTO ↔ s = "Contratto")
    ∧ (CRM.decodificaTipo s = TELEFONATA ↔ s = "Telefonata")
    ∧ (CRM.decodificaTipo s = EMAIL ↔ s = "Email")
    ∧ (CRM.decodificaTipo s = ALTRO ↔
         s ≠ "Appuntamento" ∧ s ≠ "Contratto" ∧ s ≠ "Telefonata" ∧ s ≠ "Email")).
  { unfold CRM.decodificaTipo.
    destruct (String.eqb_spec s "Appuntamento") as [->|H1];
      [repeat split; intros; try congruence; try discriminate; tauto|].
    destruct (String.eqb_spec s "Contratto") as [->|H2];
      [repeat split; intros; try congruence; try discriminate; tauto|].
    destruct (String.eqb_spec s "Telefonata") as [->|H3];
      [repeat split; intros; try congruence; try discriminate; tauto|].
    destruct (String.eqb_spec s "Email") as [->|H4];
      [repeat split; intros; try congruence; try discriminate; tauto|].
    destruct (String.eqb s "Altro");
      repeat split; intros; try congruence; try discriminate. }
  destruct Htab as (T1 & T2 & T3 & T4 & T5).
  repeat (split; [assumption|]).
  repeat (split; [reflexivity|]).
  split.
  - destruct i as [? ? [] ? ? ?]; reflexivity.
  - intros linea H. unfold CRM.leggiInterazione. rewrite H.
    destruct linea; [discriminate H | reflexivity].
Qed.

(** ** Searching *)

Section Ricerca_testuale.

Implicit Types (clienti : list Cliente.t) (t : string).

Lemma cercaCliente_da_clienti i clienti t :
  snd <$> CRM.cercaCliente_da i clienti t
  = filter (λ c, Cliente.contieneStringa c t = true) clienti.
Proof.
  revert i. induction clienti as [|c resto IH]; intros i; simpl; [reflexivity|].
  rewrite filter_cons. destruct (Cliente.contieneStringa c t) eqn:E.
  - rewrite decide_True by reflexivity. rewrite fmap_cons, IH. reflexivity.
  - rewrite decide_False by discriminate. apply IH.
Qed.

Lemma cercaCliente_da_numeri i clienti t n c :
  (n, c) ∈ CRM.cercaCliente_da i clienti t →
  ∃ j, n = i + j + 1 ∧ clienti !! j = Some c.
Proof.
  revert i. induction clienti as [|d resto IH]; intros i; simpl.
  - intros []%elem_of_nil.
  - assert (Hresto : (n, c) ∈ CRM.cercaCliente_da (S i) resto t →
                     ∃ j, n = i + j + 1 ∧ (d :: resto) !! j = Some c).
    { intros (j & -> & Hj)%IH. exists (S j). split; [lia | exact Hj]. }
    destruct (Cliente.contieneStringa d t); [|exact Hresto].
    intros [[= -> ->]|H]%elem_of_cons; [|exact (Hresto H)].
    exists 0. split; [lia | reflexivity].
Qed.

Lemma contieneStringa_spec (c : Cliente.t) t :
  Cliente.contieneStringa c t = true ↔
  sottostringa (minuscolo t) (minuscolo (Cliente.nome c))
  ∨ sottostringa (minuscolo t) (minuscolo (Cliente.cognome c))
  ∨ sottostringa (minuscolo t) (minuscolo (Cliente.email c))
  ∨ sottostringa (minuscolo t) (minuscolo (Cliente.telefono c))
  ∨ sottostringa t (Cliente.codiceFiscale c).
Proof.
  rewrite <- !trovata_spec. unfold Cliente.contieneStringa.
  destruct (trovata (minuscolo (Cliente.nome c)) (minuscolo t)); [tauto|].
  destruct (trovata (minuscolo (Cliente.cognome c)) (minuscolo t)); [tauto|].
  destruct (trovata (minuscolo (Cliente.email c)) (minuscolo t)); [tauto|].
  destruct (trovata (minuscolo (Cliente.telefono c)) (minuscolo t)); [tauto|].
  destruct (trovata (Cliente.codiceFiscale c) t); [tauto|].
  split; [discriminate|]. intros [H|[H|[H|[H|H]]]]; discriminate H.
Qed.

End Ricerca_testuale.

(** C6.  [contieneStringa] of a customer is true exactly when the search
    term, in small letters, occurs in the first name, the last name, the
    e-mail or the telephone in small letters, or the term as it is occurs in
    the tax code.  A customer whose first name is "Mario" is matched by
    "mario" and by "MARIO".  [cercaCliente] shows the customers that match,
    all of them and in the order of the collection, each with its position
    counted from one. *)
Theorem cercaCliente_corretto (clienti : list Cliente.t) (c : Cliente.t) (t : string) :
  (Cliente.contieneStringa c t = true ↔
     sottostringa (minuscolo t) (minuscolo (Cliente.nome c))
     ∨ sottostringa (minuscolo t) (minuscolo (Cliente.cognome c))
     ∨ sottostringa (minuscolo t) (minuscolo (Cliente.email c))
     ∨ sottostringa (minuscolo t) (minuscolo (Cliente.telefono c))
     ∨ sottostringa t (Cliente.codiceFiscale c))
  ∧ (Cliente.nome c = "Mario" →
       Cliente.contieneStringa c "mario" = true
       ∧ Cliente.contieneStringa c "MARIO" = true)
  ∧ snd <$> (CRM.cercaCliente clienti t).2
    = filter (λ c, Cliente.contieneStringa c t = true) clienti
  ∧ (∀ n d, (n, d) ∈ (CRM.cercaCliente clienti t).2 →
       1 ≤ n ∧ clienti !! (n - 1) = Some d)
  ∧ (c ∈ clienti → Cliente.contieneStringa c t = true →
       ∃ n, (n, c) ∈ (CRM.cercaCliente clienti t).2).
Proof.
  assert (Hfiltro : snd <$> (CRM.cercaCliente clienti t).2
                    = filter (λ c, Cliente.contieneStringa c t = true) clienti).
  { unfold CRM.cercaCliente. case_bool_decide as E; simpl.
    - rewrite E. reflexivity.
    - apply cercaCliente_da_clienti. }
  split; [apply contieneStringa_spec|]. split; [|split; [exact Hfiltro|split]].
  - intros H. unfold Cliente.contieneStringa. rewrite H.
    assert (E1 : trovata (minuscolo "Mario") (minuscolo "mario") = true)
      by (vm_compute; reflexivity).
    assert (E2 : trovata (minuscolo "Mario") (minuscolo "MARIO") = true)
      by (vm_compute; reflexivity).
    rewrite E1, E2. split; reflexivity.
  - intros n d. unfold CRM.cercaCliente. case_bool_decide; simpl.
    + intros []%elem_of_nil.
    + intros (j & -> & Hj)%cercaCliente_da_numeri.
      split; [lia|]. replace (0 + j + 1 - 1) with j by lia. exact Hj.
  - intros Hin Hc.
    assert (Hf : c ∈ snd <$> (CRM.cercaCliente clienti t).2).
    { rewrite Hfiltro. apply list_elem_of_filter. split; assumption. }
    apply list_elem_of_fmap in Hf as ([n d] & -> & Hnd). exists n. exact Hnd.
Qed.

Lemma cercaCliente_esempio :
  Cliente.contieneStringa mario "mario" = true
  ∧ Cliente.contieneStringa mario "MARIO" = true
  ∧ (CRM.cercaCliente [anna; mario] "MARIO").2 = [(2, mario)].
Proof.
  pose proof (cercaCliente_corretto [anna; mario] mario "MARIO")
    as (_ & Hmario & _).
  destruct (Hmario eq_refl) as [H1 H2].
  split; [exact H1|]. split; [exact H2|]. vm_compute. reflexivity.
Defined.

(** ** What a load builds *)

Section Caricamento_completo.

Implicit Types (clienti : list Cliente.t) (linea : string).

Lemma anagrafica_aggiungiInterazione x (c : Cliente.t) :
  anagrafica (Cliente.aggiungiInterazione x c) = anagrafica c.
Proof. reflexivity. Qed.

Lemma collega_anagrafica clienti cf x :
  anagrafica <$> CRM.collega clienti cf x = anagrafica <$> clienti.
Proof.
  induction clienti as [|c resto IH]; simpl; [reflexivity|].
  destruct (String.eqb (Cliente.codiceFiscale c) cf); rewrite !fmap_cons;
    [reflexivity|].
  f_equal. exact IH.
Qed.

Lemma leggiInterazione_anagrafica (ls : list string) clienti :
  anagrafica <$> fold_left CRM.leggiInterazione ls clienti = anagrafica <$> clienti.
Proof.
  revert clienti. induction ls as [|l ls IH]; intros clienti; simpl; [reflexivity|].
  rewrite IH, leggiInterazione_riga.
  destruct (interazioneDiRiga l) as [[cf x]|]; [apply collega_anagrafica | reflexivity].
Qed.

Lemma clienteDiRiga_campi linea (c : Cliente.t) :
  clienteDiRiga linea = Some c ↔
  ∃ d0 d1 d2 d3 d4 d5 d6,
    CRM.campi linea = [d0; d1; d2; d3; d4; d5; d6]
    ∧ c = Cliente.mk d0 d1 d2 d3 d4 d5 d6 [].
Proof.
  unfold clienteDiRiga. split.
  - destruct (CRM.campi linea) as [|d0 [|d1 [|d2 [|d3 [|d4 [|d5 [|d6 [|? ?]]]]]]]];
      try discriminate.
    intros [= <-]. exists d0, d1, d2, d3, d4, d5, d6. split; reflexivity.
  - intros (d0 & d1 & d2 & d3 & d4 & d5 & d6 & -> & ->). reflexivity.
Qed.

Lemma clienteDiRiga_sette linea :
  is_Some (clienteDiRiga linea) ↔ length (CRM.campi linea) = 7.
Proof.
  unfold clienteDiRiga.
  destruct (CRM.campi linea) as [|d0 [|d1 [|d2 [|d3 [|d4 [|d5 [|d6 [|? ?]]]]]]]];
    simpl; split; try discriminate; try (intros [? [=]]); eauto.
Qed.

Lemma omap_cons_eq {A B} (f : A → option B) (x : A) (l : list A) :
  omap f (x :: l)
  = match f x with Some y => y :: omap f l | None => omap f l end.
Proof. reflexivity. Qed.

Lemma clienteDiRiga_anagrafica (ls : list string) :
  anagrafica <$> omap clienteDiRiga ls = omap clienteDiRiga ls.
Proof.
  induction ls as [|l ls IH]; [reflexivity|]. rewrite omap_cons_eq.
  destruct (clienteDiRiga l) as [c|] eqn:E; [|exact IH].
  rewrite fmap_cons, IH. f_equal.
  apply clienteDiRiga_campi in E as (? & ? & ? & ? & ? & ? & ? & _ & ->).
  reflexivity.
Qed.

Lemma clienteDiRiga_senza_interazioni (ls : list string) :
  numero_interazioni (omap clienteDiRiga ls) = 0.
Proof.
  unfold numero_interazioni. induction ls as [|l ls IH]; [reflexivity|].
  rewrite omap_cons_eq.
  destruct (clienteDiRiga l) as [c|] eqn:E; [|exact IH].
  rewrite fmap_cons. cbn [sum_list]. rewrite IH.
  apply clienteDiRiga_campi in E as (? & ? & ? & ? & ? & ? & ? & _ & ->).
  reflexivity.
Qed.

Lemma numero_collega_da i clienti cf x :
  numero_interazioni (CRM.collega clienti cf x)
  = numero_interazioni clienti
    + (if decide (scansione i clienti cf = (-1)%Z) then 0 else 1).
Proof.
  unfold numero_interazioni. revert i.
  induction clienti as [|c resto IH]; intros i; [reflexivity|].
  cbn [CRM.collega scansione].
  destruct (String.eqb (Cliente.codiceFiscale c) cf);
    rewrite !fmap_cons; cbn [sum_list].
  - rewrite decide_False by lia.
    unfold Cliente.aggiungiInterazione. cbn [Cliente.interazioni].
    rewrite length_app. cbn [length]. unfold id. lia.
  - rewrite (IH (S i)). unfold id. lia.
Qed.

Lemma numero_leggiInterazione (ls : list string) clienti :
  numero_interazioni (fold_left CRM.leggiInterazione ls clienti)
  = numero_interazioni clienti
    + length (filter (λ p, CRM.trovaCliente clienti p.1 ≠ (-1)%Z)
                (omap interazioneDiRiga ls)).
Proof.
  revert clienti. induction ls as [|l ls IH]; intros clienti; [simpl; lia|].
  cbn [fold_left]. rewrite omap_cons_eq, IH, leggiInterazione_riga.
  destruct (interazioneDiRiga l) as [[cf x]|]; [|reflexivity].
  rewrite filter_cons. cbn [fst].
  rewrite (numero_collega_da 0). fold (CRM.trovaCliente clienti cf).
  rewrite (list_filter_iff
             (λ p, CRM.trovaCliente (CRM.collega clienti cf x) p.1 ≠ (-1)%Z)
             (λ p, CRM.trovaCliente clienti p.1 ≠ (-1)%Z))
    by (intros p; rewrite trovaCliente_collega; reflexivity).
  repeat case_decide; try congruence; cbn [length]; lia.
Qed.

End Caricamento_completo.

(** C5.  When both files can be opened, the load succeeds and the customers
    it holds are, in file order, those of the lines of the customer file
    whose split on the separator has exactly seven fields, each built from
    these seven fields with no interaction; every other line, blank or with
    another number of fields, is passed over and the load goes on.  The
    split of a line is the list of separator-free fields whose join is the
    line.  The lines are all the lines of the file, each once and in file
    order: they hold no line feed, and written one after the other, each
    followed by a line feed, they are the file (with a line feed added at
    its end when it has characters and does not end in one). *)
Theorem caricaDati_clienti (m : Mondo) (clienti : list Cliente.t)
    (fileClienti fileInterazioni : string) :
  leggi m CRM.nomeFileClienti = Some fileClienti →
  leggi m CRM.nomeFileInterazioni = Some fileInterazioni →
  (∀ linea dati,
     CRM.campi linea = dati ↔
     dati ≠ [] ∧ Forall (λ d, senza barra d = true) dati ∧ unisci dati = linea)
  ∧ (∀ linea, is_Some (clienteDiRiga linea) ↔ length (CRM.campi linea) = 7)
  ∧ (∀ linea c,
       clienteDiRiga linea = Some c ↔
       ∃ d0 d1 d2 d3 d4 d5 d6,
         CRM.campi linea = [d0; d1; d2; d3; d4; d5; d6]
         ∧ c = Cliente.mk d0 d1 d2 d3 d4 d5 d6 [])
  ∧ clienteDiRiga "" = None
  ∧ (∀ letti linea,
       CRM.leggiCliente letti linea
       = match clienteDiRiga linea with
         | Some c => letti ++ [c]
         | None => letti
         end)
  ∧ fold_left CRM.leggiCliente (CRM.righe fileClienti) []
    = omap clienteDiRiga (CRM.righe fileClienti)
  ∧ Forall (λ l, senza a_capo l = true) (CRM.righe fileClienti)
  ∧ unisci_righe (CRM.righe fileClienti) = chiusa fileClienti
  ∧ ∃ caricati,
      CRM.caricaDati m clienti = (true, caricati)
      ∧ anagrafica <$> caricati = omap clienteDiRiga (CRM.righe fileClienti)
      ∧ ∀ ls, Forall (λ l, senza a_capo l = true) ls →
              chiusa fileClienti = unisci_righe ls →
              anagrafica <$> caricati = omap clienteDiRiga ls.
Proof.
  intros Hc Hi.
  assert (Hsenza : Forall (λ l, senza a_capo l = true) (CRM.righe fileClienti))
    by (apply righe_ciclo_senza; reflexivity).
  assert (Hfile : unisci_righe (CRM.righe fileClienti) = chiusa fileClienti).
  { unfold CRM.righe. rewrite righe_ciclo_unisci. destruct fileClienti; reflexivity. }
  split; [apply campi_spec|]. split; [apply clienteDiRiga_sette|].
  split; [apply clienteDiRiga_campi|]. split; [reflexivity|].
  split; [apply leggiCliente_riga|].
  split; [rewrite leggiCliente_righe; reflexivity|].
  split; [exact Hsenza|]. split; [exact Hfile|].
  eexists. split; [apply (caricaDati_letti m clienti _ _ Hc Hi)|].
  assert (Han : anagrafica <$> fold_left CRM.leggiInterazione
                  (CRM.righe fileInterazioni)
                  (omap clienteDiRiga (CRM.righe fileClienti))
                = omap clienteDiRiga (CRM.righe fileClienti)).
  { rewrite leggiInterazione_anagrafica. apply clienteDiRiga_anagrafica. }
  split; [exact Han|].
  intros ls Hls Heq. rewrite Han. f_equal.
  rewrite <- (righe_unisci _ Hsenza), Hfile, Heq. apply righe_unisci, Hls.
Qed.

Lemma caricaDati_clienti_esempio :
  CRM.campi "Luca|Verdi|l@z.it|222|Via Larga"
    = ["Luca"; "Verdi"; "l@z.it"; "222"; "Via Larga"]
  ∧ ∃ caricati,
      CRM.caricaDati (mondo_con file_con_riga_corta "") [mario] = (true, caricati)
      ∧ anagrafica <$> caricati = [anna]
      ∧ caricati = [anna].
Proof.
  split; [reflexivity|].
  destruct (caricaDati_clienti (mondo_con file_con_riga_corta "") [mario]
              file_con_riga_corta "" eq_refl eq_refl)
    as (_ & _ & _ & _ & _ & _ & _ & _ & caricati & Hcar & _ & Hls).
  exists caricati. split; [exact Hcar|]. split.
  - rewrite (Hls ["Anna|Rossi|a@x.it|000|Via Roma|RSSANN80A01H501Z|01/01/1980";
                  "Luca|Verdi|l@z.it|222|Via Larga"]);
      [reflexivity | repeat constructor | reflexivity].
  - assert (E : CRM.caricaDati (mondo_con file_con_riga_corta "") [mario]
                = (true, [anna])) by (vm_compute; reflexivity).
    congruence.
Defined.

Section Integrita.

Lemma clienteDiRiga_vuoto (ls : list string) (c : Cliente.t) :
  c ∈ omap clienteDiRiga ls → Cliente.interazioni c = [].
Proof.
  intros (l & _ & E)%list_elem_of_omap.
  apply clienteDiRiga_campi in E as (? & ? & ? & ? & ? & ? & ? & _ & ->).
  reflexivity.
Qed.

Lemma trovaCliente_leggiInterazione (ls : list string) (clienti : list Cliente.t) cf :
  CRM.trovaCliente (fold_left CRM.leggiInterazione ls clienti) cf
  = CRM.trovaCliente clienti cf.
Proof. apply scansione_codici, leggiInterazione_codici. Qed.

End Integrita.

(** C4.  After a load that succeeds, the interactions of the customer at
    position [k] are the interactions of those seven-field lines of the
    interaction file whose leading tax code is found, by the scan of the
    loaded customers, at position [k]: in file order, and nothing else.  So
    every interaction in memory sits under a customer whose tax code is the
    leading field of its line, and that customer is the first one with the
    code; and the interactions in memory are as many as the lines whose tax
    code some loaded customer has: a line whose tax code no customer has
    leaves no interaction, every other one leaves exactly one. *)
Theorem caricaDati_interazioni (m : Mondo) (clienti : list Cliente.t)
    (fileClienti fileInterazioni : string) :
  leggi m CRM.nomeFileClienti = Some fileClienti →
  leggi m CRM.nomeFileInterazioni = Some fileInterazioni →
  let base := omap clienteDiRiga (CRM.righe fileClienti) in
  let coppie := omap interazioneDiRiga (CRM.righe fileInterazioni) in
  ∃ caricati,
    CRM.caricaDati m clienti = (true, caricati)
    ∧ anagrafica <$> caricati = base
    ∧ (∀ k c, caricati !! k = Some c →
         Cliente.interazioni c = interazioni_di caricati k coppie)
    ∧ (∀ k c x, caricati !! k = Some c → x ∈ Cliente.interazioni c →
         (∃ linea, linea ∈ CRM.righe fileInterazioni
                   ∧ interazioneDiRiga linea = Some (Cliente.codiceFiscale c, x))
         ∧ ∀ j d, caricati !! j = Some d → j < k →
                  Cliente.codiceFiscale d ≠ Cliente.codiceFiscale c)
    ∧ (∀ cf, (∀ c, c ∈ caricati → Cliente.codiceFiscale c ≠ cf) →
         ∀ k, interazioni_di caricati k (filter (λ p, p.1 = cf) coppie) = [])
    ∧ numero_interazioni caricati
      = length (filter (λ p, CRM.trovaCliente caricati p.1 ≠ (-1)%Z) coppie).
Proof.
  intros Hc Hi base coppie.
  exists (fold_left CRM.leggiInterazione (CRM.righe fileInterazioni) base).
  set (caricati := fold_left CRM.leggiInterazione (CRM.righe fileInterazioni) base).
  assert (Htrova : ∀ cf, CRM.trovaCliente caricati cf = CRM.trovaCliente base cf)
    by (intros cf; apply trovaCliente_leggiInterazione).
  assert (Hdi : ∀ k l, interazioni_di caricati k l = interazioni_di base k l).
  { intros k l. unfold interazioni_di. f_equal. apply list_filter_iff.
    intros p. rewrite Htrova. reflexivity. }
  assert (Hk : ∀ k c, caricati !! k = Some c →
             ∃ c0, base !! k = Some c0
                   ∧ c = con_interazioni (interazioni_di base k coppie) c0
                   ∧ Cliente.interazioni c0 = []).
  { intros k c. unfold caricati. rewrite leggiInterazione_righe.
    destruct (base !! k) as [c0|] eqn:E; [|discriminate].
    intros [= <-]. exists c0. split; [reflexivity|]. split; [reflexivity|].
    apply (clienteDiRiga_vuoto (CRM.righe fileClienti)).
    apply list_elem_of_lookup. eauto. }
  split; [apply (caricaDati_letti m clienti _ _ Hc Hi)|].
  split; [|split; [|split; [|split]]].
  - unfold caricati. rewrite leggiInterazione_anagrafica.
    apply clienteDiRiga_anagrafica.
  - intros k c (c0 & _ & -> & H0)%Hk. rewrite Hdi.
    unfold con_interazioni. simpl. rewrite H0. reflexivity.
  - intros k c x Hl Hx. destruct (Hk k c Hl) as (c0 & Hb & -> & H0).
    unfold con_interazioni in Hx. simpl in Hx. rewrite H0 in Hx. simpl in Hx.
    unfold interazioni_di in Hx.
    apply list_elem_of_fmap in Hx as ([cf y] & -> & [Hp Hin]%list_elem_of_filter).
    simpl in Hp.
    apply trovaCliente_primo in Hp as (c1 & Hb1 & Hcf & Hmin).
    assert (c1 = c0) as -> by congruence. simpl. split.
    + apply list_elem_of_omap in Hin as (linea & Hlin & E).
      exists linea. split; [exact Hlin|]. rewrite E, Hcf. reflexivity.
    + intros j d Hj Hlt. destruct (Hk j d Hj) as (d0 & Hd0 & -> & _). simpl.
      rewrite Hcf. exact (Hmin j d0 Hd0 Hlt).
  - intros cf Hn k. unfold interazioni_di.
    apply trovaCliente_assente in Hn.
    apply elem_of_nil_inv. intros y.
    intros ([cf' z] & _ & [Hp [Heq _]%list_elem_of_filter]%list_elem_of_filter)%list_elem_of_fmap.
    simpl in *. subst cf'. lia.
  - rewrite (list_filter_iff
               (λ p, CRM.trovaCliente caricati p.1 ≠ (-1)%Z)
               (λ p, CRM.trovaCliente base p.1 ≠ (-1)%Z))
      by (intros p; rewrite Htrova; reflexivity).
    unfold caricati. rewrite numero_leggiInterazione.
    unfold base. rewrite clienteDiRiga_senza_interazioni. reflexivity.
Qed.

Lemma caricaDati_interazioni_esempio :
  ∃ caricati,
    CRM.caricaDati (mondo_con file_due_clienti file_tre_interazioni) [] = (true, caricati)
    ∧ caricati = [con_interazioni [visita] anna; con_interazioni [chiamata] mario]
    ∧ numero_interazioni caricati = 2.
Proof.
  destruct (caricaDati_interazioni (mondo_con file_due_clienti file_tre_interazioni) []
              file_due_clienti file_tre_interazioni eq_refl eq_refl)
    as (caricati & Hcar & _).
  exists caricati. split; [exact Hcar|].
  assert (E : CRM.caricaDati (mondo_con file_due_clienti file_tre_interazioni) []
              = (true, [con_interazioni [visita] anna; con_interazioni [chiamata] mario]))
    by (vm_compute; reflexivity).
  rewrite E in Hcar. injection Hcar as <-. split; reflexivity.
Defined.

(** ** Saving, and loading what was saved *)

Section Salvataggio.

Implicit Types (clienti : list Cliente.t) (c : Cliente.t) (i : Interazione.t).

Local Ltac spezza :=
  repeat match goal with
    | H : (_ && _) = true |- _ => apply andb_true_iff in H as [? ?]
    end.

Lemma salvaInterazioni_testo cf (l : list Interazione.t) (fileInterazioni : string) :
  CRM.salvaInterazioni cf l fileInterazioni
  = fileInterazioni +:+ testoInterazioni cf l.
Proof.
  revert fileInterazioni. induction l as [|i l IH]; intros f; simpl.
  - rewrite app_vuota_r. reflexivity.
  - rewrite IH, app_assoc_s. reflexivity.
Qed.

Lemma salvaClienti_testo clienti (fileClienti fileInterazioni : string) :
  CRM.salvaClienti clienti fileClienti fileInterazioni
  = (fileClienti +:+ testoClienti clienti,
     fileInterazioni +:+ testoTutteInterazioni clienti).
Proof.
  revert fileClienti fileInterazioni.
  induction clienti as [|c resto IH]; intros fc fi; simpl.
  - rewrite !app_vuota_r. reflexivity.
  - rewrite IH, salvaInterazioni_testo, !app_assoc_s. reflexivity.
Qed.

Lemma rigaCliente_linea c : CRM.rigaCliente c = lineaCliente c +:+ CRM.nl.
Proof.
  unfold CRM.rigaCliente, lineaCliente. cbn [unisci].
  rewrite !app_assoc_s. reflexivity.
Qed.

Lemma rigaInterazione_linea cf i :
  CRM.rigaInterazione cf i = lineaInterazione cf i +:+ CRM.nl.
Proof.
  unfold CRM.rigaInterazione, lineaInterazione. cbn [unisci].
  rewrite !app_assoc_s. reflexivity.
Qed.

Lemma getTipoStringa_pulito i :
  campo_pulito (Interazione.getTipoStringa i) = true.
Proof. destruct i as [? ? [] ? ? ?]; reflexivity. Qed.

Lemma lineaCliente_senza_a_capo c :
  cliente_pulito c = true → senza a_capo (lineaCliente c) = true.
Proof.
  unfold cliente_pulito, campo_pulito, lineaCliente. intros H. spezza.
  cbn [unisci]. rewrite !senza_app.
  repeat (apply andb_true_iff; split); first [assumption | reflexivity].
Qed.

Lemma lineaInterazione_senza_a_capo cf i :
  campo_pulito cf = true → interazione_pulita i = true →
  senza a_capo (lineaInterazione cf i) = true.
Proof.
  unfold interazione_pulita, lineaInterazione. intros Hcf H.
  pose proof (getTipoStringa_pulito i) as Ht.
  unfold campo_pulito in *. spezza.
  cbn [unisci]. rewrite !senza_app.
  repeat (apply andb_true_iff; split); first [assumption | reflexivity].
Qed.

Lemma clienteDiRiga_linea c :
  cliente_pulito c = true → clienteDiRiga (lineaCliente c) = Some (anagrafica c).
Proof.
  unfold cliente_pulito, campo_pulito. intros H. spezza.
  unfold clienteDiRiga, lineaCliente.
  rewrite campi_unisci; [reflexivity | discriminate |].
  repeat constructor; assumption.
Qed.

Lemma decodificaTipo_getTipoStringa i :
  CRM.decodificaTipo (Interazione.getTipoStringa i) = Interazione.tipo i.
Proof. destruct i as [? ? [] ? ? ?]; reflexivity. Qed.

Lemma interazioneDiRiga_linea cf i :
  campo_pulito cf = true → interazione_pulita i = true →
  interazioneDiRiga (lineaInterazione cf i) = Some (cf, i).
Proof.
  unfold interazione_pulita. intros Hcf H.
  pose proof (getTipoStringa_pulito i) as Ht.
  unfold campo_pulito in *. spezza.
  unfold interazioneDiRiga, lineaInterazione.
  rewrite campi_unisci; [| discriminate | repeat constructor; assumption].
  rewrite decodificaTipo_getTipoStringa. destruct i; reflexivity.
Qed.

(** *** The lines of the two files that [salvaDati] writes *)

Lemma righe_testoClienti clienti :
  Forall (λ c, cliente_pulito c = true) clienti →
  CRM.righe (testoClienti clienti) = lineaCliente <$> clienti.
Proof.
  induction 1 as [|c resto Hc _ IH]; [reflexivity|].
  cbn [testoClienti foldr]. fold (testoClienti resto).
  rewrite rigaCliente_linea, app_assoc_s.
  rewrite righe_riga by (apply lineaCliente_senza_a_capo, Hc).
  rewrite IH. reflexivity.
Qed.

Lemma righe_testoInterazioni cf (l : list Interazione.t) (resto : string) :
  campo_pulito cf = true →
  Forall (λ i, interazione_pulita i = true) l →
  CRM.righe (testoInterazioni cf l +:+ resto)
  = (lineaInterazione cf <$> l) ++ CRM.righe resto.
Proof.
  intros Hcf. induction 1 as [|i l Hi _ IH]; [reflexivity|].
  cbn [testoInterazioni foldr]. fold (testoInterazioni cf l).
  rewrite rigaInterazione_linea, !app_assoc_s.
  rewrite righe_riga by (apply lineaInterazione_senza_a_capo; assumption).
  rewrite IH. reflexivity.
Qed.

Lemma cliente_pulito_interazioni c :
  cliente_pulito c = true →
  campo_pulito (Cliente.codiceFiscale c) = true
  ∧ Forall (λ i, interazione_pulita i = true) (Cliente.interazioni c).
Proof.
  unfold cliente_pulito. intros H. spezza. split; [assumption|].
  apply Forall_forall. intros i Hi%list_elem_of_In.
  match goal with
  | F : forallb _ _ = true |- _ => rewrite forallb_forall in F; exact (F i Hi)
  end.
Qed.

Lemma righe_testoTutteInterazioni clienti :
  Forall (λ c, cliente_pulito c = true) clienti →
  CRM.righe (testoTutteInterazioni clienti)
  = clienti ≫= λ c,
      lineaInterazione (Cliente.codiceFiscale c) <$> Cliente.interazioni c.
Proof.
  induction 1 as [|c resto Hc _ IH]; [reflexivity|].
  cbn [testoTutteInterazioni foldr]. fold (testoTutteInterazioni resto).
  destruct (cliente_pulito_interazioni c Hc) as [Hcf Hi].
  rewrite (righe_testoInterazioni _ _ _ Hcf Hi), IH. reflexivity.
Qed.

Lemma clienteDiRiga_righe clienti :
  Forall (λ c, cliente_pulito c = true) clienti →
  omap clienteDiRiga (lineaCliente <$> clienti) = anagrafica <$> clienti.
Proof.
  induction 1 as [|c resto Hc _ IH]; [reflexivity|].
  rewrite !fmap_cons, omap_cons_eq, (clienteDiRiga_linea c Hc), IH. reflexivity.
Qed.

Lemma interazioneDiRiga_righe cf (l : list Interazione.t) :
  campo_pulito cf = true →
  Forall (λ i, interazione_pulita i = true) l →
  omap interazioneDiRiga (lineaInterazione cf <$> l) = (λ i, (cf, i)) <$> l.
Proof.
  intros Hcf. induction 1 as [|i l Hi _ IH]; [reflexivity|].
  rewrite !fmap_cons, omap_cons_eq, (interazioneDiRiga_linea cf i Hcf Hi), IH.
  reflexivity.
Qed.

Lemma interazioneDiRiga_tutte clienti :
  Forall (λ c, cliente_pulito c = true) clienti →
  omap interazioneDiRiga
    (clienti ≫= λ c,
       lineaInterazione (Cliente.codiceFiscale c) <$> Cliente.interazioni c)
  = coppie_di clienti.
Proof.
  unfold coppie_di. induction 1 as [|c resto Hc _ IH]; [reflexivity|].
  rewrite !bind_cons, omap_app, IH.
  destruct (cliente_pulito_interazioni c Hc) as [Hcf Hi].
  rewrite (interazioneDiRiga_righe _ _ Hcf Hi). reflexivity.
Qed.

End Salvataggio.

Section Andata_e_ritorno.

Implicit Types (clienti : list Cliente.t) (c : Cliente.t) (cf : string).

Lemma filter_coppie_stesso cf (l : list Interazione.t) :
  filter (λ p : string * Interazione.t, p.1 = cf) ((λ i, (cf, i)) <$> l)
  = (λ i, (cf, i)) <$> l.
Proof.
  induction l as [|i l IH]; [reflexivity|].
  rewrite fmap_cons, filter_cons_True by reflexivity. rewrite IH. reflexivity.
Qed.

Lemma filter_coppie_altro cf cf' (l : list Interazione.t) :
  cf' ≠ cf →
  filter (λ p : string * Interazione.t, p.1 = cf) ((λ i, (cf', i)) <$> l) = [].
Proof.
  intros Hne. induction l as [|i l IH]; [reflexivity|].
  rewrite fmap_cons, filter_cons_False by (simpl; exact Hne). exact IH.
Qed.

Lemma filter_coppie_assente cf clienti :
  cf ∉ Cliente.codiceFiscale <$> clienti →
  filter (λ p : string * Interazione.t, p.1 = cf) (coppie_di clienti) = [].
Proof.
  unfold coppie_di. induction clienti as [|c resto IH]; intros Hn; [reflexivity|].
  rewrite fmap_cons in Hn. apply not_elem_of_cons in Hn as [Hne Hn].
  rewrite bind_cons, filter_app, (IH Hn), filter_coppie_altro by congruence.
  reflexivity.
Qed.

(** With pairwise distinct tax codes, the pairs that carry the tax code of
    a customer are those of its own interactions. *)
Lemma filter_coppie_di clienti k c :
  codici_distinti clienti → clienti !! k = Some c →
  snd <$> filter (λ p : string * Interazione.t, p.1 = Cliente.codiceFiscale c)
            (coppie_di clienti)
  = Cliente.interazioni c.
Proof.
  unfold codici_distinti, coppie_di. revert k.
  induction clienti as [|d resto IH]; intros k Hnd Hl; [discriminate|].
  rewrite fmap_cons in Hnd. apply NoDup_cons in Hnd as [Hd Hnd].
  rewrite bind_cons, filter_app. destruct k as [|k]; simpl in Hl.
  - injection Hl as ->. rewrite filter_coppie_stesso.
    fold (coppie_di resto). rewrite (filter_coppie_assente _ _ Hd), app_nil_r.
    rewrite <- list_fmap_compose. apply list_fmap_id.
  - rewrite filter_coppie_altro, app_nil_l; [exact (IH k Hnd Hl)|].
    intros E. apply Hd. rewrite E. apply list_elem_of_fmap.
    exists c. split; [reflexivity|]. apply list_elem_of_lookup. eauto.
Qed.

Lemma anagrafica_codici clienti :
  Cliente.codiceFiscale <$> (anagrafica <$> clienti)
  = Cliente.codiceFiscale <$> clienti.
Proof. rewrite <- list_fmap_compose. reflexivity. Qed.

Lemma interazioni_di_salvate clienti k c :
  codici_distinti clienti → clienti !! k = Some c →
  interazioni_di (anagrafica <$> clienti) k (coppie_di clienti)
  = Cliente.interazioni c.
Proof.
  intros Hnd Hl. unfold interazioni_di.
  rewrite <- (filter_coppie_di clienti k c Hnd Hl). f_equal.
  apply list_filter_iff. intros [cf x]. simpl.
  assert (Hbase : (anagrafica <$> clienti) !! k = Some (anagrafica c))
    by (rewrite list_lookup_fmap, Hl; reflexivity).
  split.
  - intros (c0 & Hb & Hc & _)%trovaCliente_primo.
    rewrite Hbase in Hb. injection Hb as <-. symmetry. exact Hc.
  - intros ->. apply (trovaCliente_distinti _ _ _ (anagrafica c)); try done.
    unfold codici_distinti. rewrite anagrafica_codici. exact Hnd.
Qed.

Lemma con_interazioni_anagrafica c :
  con_interazioni (Cliente.interazioni c) (anagrafica c) = c.
Proof. destruct c. reflexivity. Qed.

(** Loading the lines that a save wrote gives back the collection. *)
Lemma carica_salvate clienti :
  codici_distinti clienti →
  Forall (λ c, cliente_pulito c = true) clienti →
  fold_left CRM.leggiInterazione (CRM.righe (testoTutteInterazioni clienti))
    (omap clienteDiRiga (CRM.righe (testoClienti clienti)))
  = clienti.
Proof.
  intros Hnd Hp. apply list_eq. intros k.
  rewrite leggiInterazione_righe.
  rewrite (righe_testoClienti _ Hp), (clienteDiRiga_righe _ Hp).
  rewrite (righe_testoTutteInterazioni _ Hp), (interazioneDiRiga_tutte _ Hp).
  rewrite list_lookup_fmap. destruct (clienti !! k) as [c|] eqn:Hl; [|reflexivity].
  simpl. rewrite (interazioni_di_salvate _ _ _ Hnd Hl), con_interazioni_anagrafica.
  reflexivity.
Qed.

Lemma salvaDati_scritto (m : Mondo) clienti :
  scrivibile m CRM.nomeFileClienti = true →
  scrivibile m CRM.nomeFileInterazioni = true →
  ∃ m', CRM.salvaDati m clienti = (true, m')
        ∧ leggi m' CRM.nomeFileClienti = Some (testoClienti clienti)
        ∧ leggi m' CRM.nomeFileInterazioni = Some (testoTutteInterazioni clienti).
Proof.
  intros Hc Hi. unfold CRM.salvaDati. rewrite Hc, Hi. simpl.
  rewrite salvaClienti_testo, !app_vuota_l.
  eexists. split; [reflexivity|]. split; reflexivity.
Qed.

End Andata_e_ritorno.

(** C1, as the specification words it, fails on a customer whose first name
    holds the separator: the line written for it splits into eight fields,
    and the load passes it over. *)
Lemma salva_carica_barra :
  codici_distinti [cliente_con_barra]
  ∧ (CRM.salvaDati mondo_vuoto [cliente_con_barra]).1 = true
  ∧ CRM.caricaDati (CRM.salvaDati mondo_vuoto [cliente_con_barra]).2 []
    = (true, [])
  ∧ CRM.caricaDati (CRM.salvaDati mondo_vuoto [cliente_con_barra]).2 []
    ≠ (true, [cliente_con_barra])
  ∧ length (CRM.campi (lineaCliente cliente_con_barra)) = 8.
Proof.
  split; [apply NoDup_singleton|]. split; [reflexivity|].
  split; [vm_compute; reflexivity|]. split; [|vm_compute; reflexivity].
  vm_compute. discriminate.
Qed.

(** C1, amended.  For every collection whose customers have pairwise
    distinct tax codes and in which no string, of a customer or of an
    interaction, holds the separator or a line feed: when both files can be
    opened for writing, [salvaDati] succeeds, and [caricaDati] on the files it
    wrote, whatever the collection in memory was, succeeds and yields the
    collection that was saved: the same customers in the same order with
    their seven strings, each with its interactions in the same order. *)
Theorem salva_carica (m : Mondo) (clienti vecchi : list Cliente.t) :
  scrivibile m CRM.nomeFileClienti = true →
  scrivibile m CRM.nomeFileInterazioni = true →
  codici_distinti clienti →
  Forall (λ c, cliente_pulito c = true) clienti →
  ∃ m', CRM.salvaDati m clienti = (true, m')
        ∧ CRM.caricaDati m' vecchi = (true, clienti).
Proof.
  intros Hc Hi Hnd Hp.
  destruct (salvaDati_scritto m clienti Hc Hi) as (m' & Hs & Lc & Li).
  exists m'. split; [exact Hs|].
  rewrite (caricaDati_letti m' vecchi _ _ Lc Li).
  rewrite (carica_salvate clienti Hnd Hp). reflexivity.
Qed.

Lemma salva_carica_esempio :
  ∃ m', CRM.salvaDati mondo_vuoto negozio = (true, m')
        ∧ CRM.caricaDati m' [cliente_con_barra] = (true, negozio).
Proof.
  apply (salva_carica mondo_vuoto negozio [cliente_con_barra]).
  - reflexivity.
  - reflexivity.
  - apply NoDup_cons. split; [|apply NoDup_singleton].
    intros H%list_elem_of_singleton. discriminate H.
  - repeat constructor.
Defined.

(** ** Uniqueness of the tax code *)

Section Unicita.

Implicit Types (clienti : list Cliente.t) (c : Cliente.t) (cf : string).

Lemma codici_alter (f : Cliente.t → Cliente.t) k clienti :
  (∀ c, Cliente.codiceFiscale (f c) = Cliente.codiceFiscale c) →
  Cliente.codiceFiscale <$> alter f k clienti = Cliente.codiceFiscale <$> clienti.
Proof.
  intros Hf. apply list_eq. intros j. rewrite !list_lookup_fmap.
  destruct (decide (k = j)) as [<-|Hne].
  - rewrite list_lookup_alter_eq. destruct (clienti !! k); simpl; [|reflexivity].
    rewrite Hf. reflexivity.
  - rewrite list_lookup_alter_ne by done. reflexivity.
Qed.

Lemma codici_rimuoviInterazione posizione c :
  Cliente.codiceFiscale (Cliente.rimuoviInterazione posizione c)
  = Cliente.codiceFiscale c.
Proof.
  unfold Cliente.rimuoviInterazione.
  destruct ((0 <=? posizione)
            && (posizione <? Z.of_nat (length (Cliente.interazioni c))))%Z;
    reflexivity.
Qed.

Lemma aggiungiCliente_distinti clienti n cg e t i cf dn :
  codici_distinti clienti →
  codici_distinti (CRM.aggiungiCliente clienti n cg e t i cf dn).2.
Proof.
  intros Hnd. unfold CRM.aggiungiCliente.
  destruct (Z.eqb_spec (CRM.trovaCliente clienti cf) (-1)) as [E|E]; simpl;
    [|exact Hnd].
  unfold codici_distinti. rewrite fmap_app. apply NoDup_app.
  split; [exact Hnd|]. split; [|apply NoDup_singleton].
  intros x (c & -> & Hin)%list_elem_of_fmap Hx.
  rewrite list_fmap_singleton in Hx. apply list_elem_of_singleton in Hx.
  exact (proj1 (trovaCliente_assente clienti _) E c Hin Hx).
Qed.

Lemma modificaCliente_codici clienti cf n cg e t i dn :
  Cliente.codiceFiscale <$> (CRM.modificaCliente clienti cf n cg e t i dn).2
  = Cliente.codiceFiscale <$> clienti.
Proof.
  unfold CRM.modificaCliente. case_bool_decide; [reflexivity|].
  destruct (controllaEsistenzaCliente clienti cf =? -1)%Z; [reflexivity|].
  destruct (vuota n), (vuota cg), (vuota e), (vuota t), (vuota i), (vuota dn);
    simpl; rewrite ?codici_alter by reflexivity; reflexivity.
Qed.

Lemma eliminaCliente_distinti clienti cf conferma :
  codici_distinti clienti →
  codici_distinti (CRM.eliminaCliente clienti cf conferma).2.
Proof.
  intros Hnd. unfold CRM.eliminaCliente. case_bool_decide; [exact Hnd|].
  destruct (controllaEsistenzaCliente clienti cf =? -1)%Z; [exact Hnd|].
  destruct (String.eqb conferma "si" || String.eqb conferma "SI"
            || String.eqb conferma "Si"); [|exact Hnd].
  unfold codici_distinti. simpl. rewrite list_fmap_delete.
  eapply sublist_NoDup; [exact Hnd | apply sublist_delete].
Qed.

Lemma aggiungiInterazione_codici clienti cf d o tp ds ag r :
  Cliente.codiceFiscale <$> (CRM.aggiungiInterazione clienti cf d o tp ds ag r).2
  = Cliente.codiceFiscale <$> clienti.
Proof.
  unfold CRM.aggiungiInterazione. case_bool_decide; [reflexivity|].
  destruct (controllaEsistenzaCliente clienti cf =? -1)%Z; [reflexivity|].
  destruct (CRM.validaData d); [|reflexivity].
  destruct (CRM.validaOra o); [|reflexivity].
  simpl. apply codici_alter. reflexivity.
Qed.

Lemma eliminaInterazione_codici clienti cf posizione :
  Cliente.codiceFiscale <$> (CRM.eliminaInterazione clienti cf posizione).2
  = Cliente.codiceFiscale <$> clienti.
Proof.
  unfold CRM.eliminaInterazione.
  destruct (controllaEsistenzaCliente clienti cf =? -1)%Z; [reflexivity|].
  destruct (clienti !! _) as [c|]; [|reflexivity].
  destruct ((0 <=? posizione)
            && (posizione <? Z.of_nat (length (Cliente.interazioni c))))%Z;
    [|reflexivity].
  simpl. apply codici_alter, codici_rimuoviInterazione.
Qed.

(** The collection that a load builds has the tax codes, in file order,
    of the seven-field lines of the customer file, repeated ones
    included. *)
Lemma caricaDati_codici (m : Mondo) clienti (fileClienti fileInterazioni : string) :
  leggi m CRM.nomeFileClienti = Some fileClienti →
  leggi m CRM.nomeFileInterazioni = Some fileInterazioni →
  Cliente.codiceFiscale <$> (CRM.caricaDati m clienti).2
  = Cliente.codiceFiscale <$> omap clienteDiRiga (CRM.righe fileClienti).
Proof.
  intros Hc Hi. rewrite (caricaDati_letti m clienti _ _ Hc Hi). simpl.
  apply leggiInterazione_codici.
Qed.

(** X1.  Every operation on a collection with pairwise distinct tax codes,
    the load apart, leaves the tax codes pairwise distinct ([salvaDati] does
    not touch the collection); a load that succeeds leaves them distinct
    exactly when the seven-field lines of the customer file carry distinct
    tax codes, and a load that fails leaves the collection as it was. *)
Lemma codici_distinti_conservati clienti :
  codici_distinti clienti →
  (∀ n cg e t i cf dn,
     codici_distinti (CRM.aggiungiCliente clienti n cg e t i cf dn).2)
  ∧ (∀ cf n cg e t i dn,
       codici_distinti (CRM.modificaCliente clienti cf n cg e t i dn).2)
  ∧ (∀ cf conferma, codici_distinti (CRM.eliminaCliente clienti cf conferma).2)
  ∧ (∀ cf d o tp ds ag r,
       codici_distinti (CRM.aggiungiInterazione clienti cf d o tp ds ag r).2)
  ∧ (∀ cf posizione,
       codici_distinti (CRM.eliminaInterazione clienti cf posizione).2)
  ∧ (∀ m fileClienti fileInterazioni,
       leggi m CRM.nomeFileClienti = Some fileClienti →
       leggi m CRM.nomeFileInterazioni = Some fileInterazioni →
       (codici_distinti (CRM.caricaDati m clienti).2 ↔
        codici_distinti (omap clienteDiRiga (CRM.righe fileClienti))))
  ∧ (∀ m, leggi m CRM.nomeFileClienti = None
          ∨ leggi m CRM.nomeFileInterazioni = None →
          codici_distinti (CRM.caricaDati m clienti).2).
Proof.
  intros Hnd. unfold codici_distinti in *.
  split; [intros; apply aggiungiCliente_distinti, Hnd|].
  split; [intros; rewrite modificaCliente_codici; exact Hnd|].
  split; [intros; apply eliminaCliente_distinti, Hnd|].
  split; [intros; rewrite aggiungiInterazione_codici; exact Hnd|].
  split; [intros; rewrite eliminaInterazione_codici; exact Hnd|].
  split.
  - intros m fc fi Hc Hi. rewrite (caricaDati_codici m clienti fc fi Hc Hi).
    reflexivity.
  - intros m H. unfold CRM.caricaDati.
    destruct H as [-> | H]; [exact Hnd|].
    rewrite H. destruct (leggi m CRM.nomeFileClienti); exact Hnd.
Qed.

End Unicita.

Lemma codici_distinti_conservati_esempio :
  codici_distinti
    (CRM.aggiungiCliente [anna; mario] "Anna" "Russo" "" "" "" "RSSANN80A01H501Z" "").2
  ∧ codici_distinti (CRM.eliminaCliente [anna; mario] "RSSANN80A01H501Z" "si").2
  ∧ codici_distinti
      (CRM.aggiungiInterazione [anna; mario] "BNCMRA75B02F205X" "02/06/2024" "11:30"
         TELEFONATA "Rinnovo" "Carla" "Da richiamare").2.
Proof.
  assert (H : codici_distinti [anna; mario]).
  { apply NoDup_cons. split; [|apply NoDup_singleton].
    intros E%list_elem_of_singleton. discriminate E. }
  destruct (codici_distinti_conservati [anna; mario] H) as (Ha & _ & He & Hi & _).
  split; [apply Ha|]. split; [apply He | apply Hi].
Defined.

(** C2.  The claim does not hold of [caricaDati]: from the empty collection,
    the load of a customer file in which two lines of seven fields carry the
    same tax code succeeds and leaves two customers with that tax code in
    memory, where [aggiungiCliente] refuses the second of them. *)
Theorem caricaDati_codice_ripetuto :
  CRM.caricaDati (mondo_con file_codice_ripetuto "") []
  = (true,
     [anna;
      Cliente.nuovo "Anna" "Russo" "r@x.it" "333" "Via Milano" "RSSANN80A01H501Z"
        "01/01/1980"])
  ∧ ¬ codici_distinti (CRM.caricaDati (mondo_con file_codice_ripetuto "") []).2
  ∧ codici_distinti []
  ∧ CRM.aggiungiCliente [anna] "Anna" "Russo" "r@x.it" "333" "Via Milano"
      "RSSANN80A01H501Z" "01/01/1980"
    = (DuplicateKey, [anna]).
Proof.
  assert (E : CRM.caricaDati (mondo_con file_codice_ripetuto "") []
              = (true,
                 [anna;
                  Cliente.nuovo "Anna" "Russo" "r@x.it" "333" "Via Milano"
                    "RSSANN80A01H501Z" "01/01/1980"]))
    by (vm_compute; reflexivity).
  split; [exact E|]. split; [|split; [apply NoDup_nil_2 | reflexivity]].
  rewrite E. unfold codici_distinti. simpl. intros H.
  apply NoDup_cons in H as [H _]. apply H, list_elem_of_here.
Qed.

(** * Further properties of the code *)

(** ** Removing a customer, adding an interaction *)

Section Altre_operazioni.

Implicit Types (clienti : list Cliente.t) (c : Cliente.t) (cf t : string).

Lemma cercaInterazioni_di_cliente c j (l : list Interazione.t) t d n x :
  (d, n, x) ∈ CRM.cercaInterazioni_di c j l t → d = c ∧ x ∈ l.
Proof.
  revert j. induction l as [|y l IH]; intros j; simpl.
  - intros []%elem_of_nil.
  - assert (Hresto : (d, n, x) ∈ CRM.cercaInterazioni_di c (S j) l t →
                     d = c ∧ x ∈ y :: l).
    { intros [-> Hx]%IH. split; [reflexivity | apply list_elem_of_further, Hx]. }
    destruct (Interazione.contieneStringa y t); [|exact Hresto].
    intros [[= -> _ ->]|H]%elem_of_cons; [|exact (Hresto H)].
    split; [reflexivity | apply list_elem_of_here].
Qed.

Lemma cercaInterazioni_da_cliente clienti t d n x :
  (d, n, x) ∈ CRM.cercaInterazioni_da clienti t →
  d ∈ clienti ∧ x ∈ Cliente.interazioni d.
Proof.
  induction clienti as [|c resto IH]; simpl.
  - intros []%elem_of_nil.
  - intros [H|H]%elem_of_app.
    + apply cercaInterazioni_di_cliente in H as [-> Hx].
      split; [apply list_elem_of_here | exact Hx].
    + destruct (IH H) as [Hd Hx]. split; [apply list_elem_of_further, Hd | exact Hx].
Qed.

Lemma delete_distinti clienti k c cf :
  codici_distinti clienti → clienti !! k = Some c → Cliente.codiceFiscale c = cf →
  ∀ d, d ∈ delete k clienti → Cliente.codiceFiscale d ≠ cf.
Proof.
  intros Hnd Hk Hc d [j Hj]%list_elem_of_lookup Hd.
  unfold codici_distinti in Hnd. rewrite NoDup_alt in Hnd.
  destruct (decide (j < k)) as [Hlt|Hge].
  - rewrite list_lookup_delete_lt in Hj by exact Hlt.
    assert (j = k); [|lia].
    apply (Hnd j k cf); rewrite list_lookup_fmap.
    + rewrite Hj. simpl. congruence.
    + rewrite Hk. simpl. congruence.
  - rewrite list_lookup_delete_ge in Hj by lia.
    assert (S j = k); [|lia].
    apply (Hnd (S j) k cf); rewrite list_lookup_fmap.
    + rewrite Hj. simpl. congruence.
    + rewrite Hk. simpl. congruence.
Qed.

Lemma conferma_si (conferma : string) :
  String.eqb conferma "si" || String.eqb conferma "SI" || String.eqb conferma "Si"
  = bool_decide (conferma ∈ ["si"; "SI"; "Si"]).
Proof.
  destruct (String.eqb_spec conferma "si") as [->|H1]; [reflexivity|].
  destruct (String.eqb_spec conferma "SI") as [->|H2]; [reflexivity|].
  destruct (String.eqb_spec conferma "Si") as [->|H3]; [reflexivity|].
  simpl. symmetry. apply bool_decide_eq_false_2.
  intros [?|[?|[?|[]%elem_of_nil]%elem_of_cons]%elem_of_cons]%elem_of_cons;
    congruence.
Qed.

End Altre_operazioni.

(** X2.  [eliminaCliente] reports "no customer" on an empty collection and
    NotFound when no customer has the tax code, and changes nothing; when a
    customer has it, any answer but "si", "SI" or "Si" cancels and changes
    nothing, and one of these three removes the first customer with the tax
    code, with its interactions: the customers before it keep their
    positions, those after it move down by one.  When the tax codes were
    pairwise distinct, the tax code is then no longer found and no search of
    the interactions shows a customer with it. *)
Theorem eliminaCliente_corretto (clienti : list Cliente.t)
    (codiceFiscale conferma : string) :
  (clienti = [] →
     CRM.eliminaCliente clienti codiceFiscale conferma = (NessunCliente, []))
  ∧ (clienti ≠ [] →
     (∀ c, c ∈ clienti → Cliente.codiceFiscale c ≠ codiceFiscale) →
     CRM.eliminaCliente clienti codiceFiscale conferma = (NotFound, clienti))
  ∧ (∀ k, CRM.trovaCliente clienti codiceFiscale = Z.of_nat k →
       (conferma ∉ ["si"; "SI"; "Si"] →
          CRM.eliminaCliente clienti codiceFiscale conferma = (Annullata, clienti))
       ∧ (conferma ∈ ["si"; "SI"; "Si"] →
          CRM.eliminaCliente clienti codiceFiscale conferma
          = (Successo, delete k clienti)
          ∧ S (length (delete k clienti)) = length clienti
          ∧ (∀ j, j < k → delete k clienti !! j = clienti !! j)
          ∧ (∀ j, k ≤ j → delete k clienti !! j = clienti !! S j)
          ∧ (codici_distinti clienti →
               CRM.trovaCliente (delete k clienti) codiceFiscale = (-1)%Z
               ∧ ∀ t d n x,
                   (d, n, x) ∈ (CRM.cercaInterazioni (delete k clienti) t).2 →
                   Cliente.codiceFiscale d ≠ codiceFiscale))).
Proof.
  unfold CRM.eliminaCliente. rewrite controllaEsistenzaCliente_trovaCliente.
  split; [intros ->; reflexivity|]. split.
  - intros Hne Hn%trovaCliente_assente.
    rewrite bool_decide_eq_false_2 by exact Hne. rewrite Hn. reflexivity.
  - intros k Hk.
    pose proof Hk as (c & Hl & Hc & _)%trovaCliente_primo.
    rewrite bool_decide_eq_false_2
      by (intros ->; rewrite lookup_nil in Hl; discriminate).
    rewrite Hk, conferma_si, Nat2Z.id.
    destruct (Z.eqb_spec (Z.of_nat k) (-1)) as [?|_]; [lia|]. split.
    + intros Hno. rewrite bool_decide_eq_false_2 by exact Hno. reflexivity.
    + intros Hsi. rewrite bool_decide_eq_true_2 by exact Hsi.
      split; [reflexivity|]. split; [|split; [|split]].
      * rewrite length_delete by (rewrite Hl; eauto). apply lookup_lt_Some in Hl. lia.
      * intros j Hj. apply list_lookup_delete_lt, Hj.
      * intros j Hj. apply list_lookup_delete_ge, Hj.
      * intros Hnd.
        pose proof (delete_distinti clienti k c codiceFiscale Hnd Hl Hc) as Hdel.
        split; [apply trovaCliente_assente, Hdel|].
        intros t d n x. unfold CRM.cercaInterazioni. case_bool_decide; simpl.
        -- intros []%elem_of_nil.
        -- intros [Hd _]%cercaInterazioni_da_cliente. apply Hdel, Hd.
Qed.

Lemma eliminaCliente_esempio :
  CRM.eliminaCliente negozio "RSSANN80A01H501Z" "si"
  = (Successo, [con_interazioni [chiamata; firma] mario])
  ∧ CRM.eliminaCliente negozio "RSSANN80A01H501Z" "sI" = (Annullata, negozio)
  ∧ CRM.trovaCliente (delete 0 negozio) "RSSANN80A01H501Z" = (-1)%Z.
Proof.
  assert (Hk : CRM.trovaCliente negozio "RSSANN80A01H501Z" = Z.of_nat 0)
    by reflexivity.
  assert (Hnd : codici_distinti negozio).
  { apply NoDup_cons. split; [|apply NoDup_singleton].
    intros E%list_elem_of_singleton. discriminate E. }
  destruct (eliminaCliente_corretto negozio "RSSANN80A01H501Z" "si")
    as (_ & _ & Hsi).
  destruct (eliminaCliente_corretto negozio "RSSANN80A01H501Z" "sI")
    as (_ & _ & Hno).
  destruct (Hsi 0 Hk) as [_ Hsi']. destruct (Hno 0 Hk) as [Hno' _].
  destruct Hsi' as (E & _ & _ & _ & Hd); [apply list_elem_of_here|].
  split; [exact E|]. split.
  - apply Hno'.
    intros [?|[?|[?|[]%elem_of_nil]%elem_of_cons]%elem_of_cons]%elem_of_cons;
      discriminate.
  - exact (proj1 (Hd Hnd)).
Defined.

(** X4.  [aggiungiInterazione] looks for the customer before it looks at
    the date and the time: it reports "no customer" on an empty collection,
    NotFound when no customer has the tax code, and an invalid format when
    [validaData] refuses the date or [validaOra] the time, changing nothing
    in these cases; otherwise it succeeds, and the new interaction is the
    last one of the first customer with the tax code, whose other
    interactions and strings stay, as does every other customer. *)
Theorem aggiungiInterazione_corretto (clienti : list Cliente.t)
    (codiceFiscale data ora : string) (tipo : TipoInterazione)
    (descrizione agente risultato : string) :
  (clienti = [] →
     CRM.aggiungiInterazione clienti codiceFiscale data ora tipo descrizione
       agente risultato = (NessunCliente, []))
  ∧ (clienti ≠ [] →
     (∀ c, c ∈ clienti → Cliente.codiceFiscale c ≠ codiceFiscale) →
     CRM.aggiungiInterazione clienti codiceFiscale data ora tipo descrizione
       agente risultato = (NotFound, clienti))
  ∧ (∀ k c, CRM.trovaCliente clienti codiceFiscale = Z.of_nat k →
       clienti !! k = Some c →
       (CRM.validaData data = false ∨ CRM.validaOra ora = false →
          CRM.aggiungiInterazione clienti codiceFiscale data ora tipo descrizione
            agente risultato = (FormatoNonValido, clienti))
       ∧ (CRM.validaData data = true → CRM.validaOra ora = true →
          CRM.aggiungiInterazione clienti codiceFiscale data ora tipo descrizione
            agente risultato
          = (Successo,
             <[k := con_interazioni
                      [Interazione.mk data ora tipo descrizione agente risultato] c]>
               clienti)
          ∧ ∀ j, j ≠ k →
              <[k := con_interazioni
                       [Interazione.mk data ora tipo descrizione agente risultato] c]>
                clienti !! j = clienti !! j)).
Proof.
  unfold CRM.aggiungiInterazione. rewrite controllaEsistenzaCliente_trovaCliente.
  split; [intros ->; reflexivity|]. split.
  - intros Hne Hn%trovaCliente_assente.
    rewrite bool_decide_eq_false_2 by exact Hne. rewrite Hn. reflexivity.
  - intros k c Hk Hl.
    rewrite bool_decide_eq_false_2
      by (intros ->; rewrite lookup_nil in Hl; discriminate).
    rewrite Hk, Nat2Z.id. destruct (Z.eqb_spec (Z.of_nat k) (-1)) as [?|_]; [lia|]. split.
    + intros [->| ->]; [reflexivity|]. destruct (CRM.validaData data); reflexivity.
    + intros -> ->. simpl. split.
      * rewrite (alter_insert _ _ _ _ Hl). reflexivity.
      * intros j Hj. apply list_lookup_insert_ne. congruence.
Qed.

Lemma aggiungiInterazione_esempio :
  CRM.aggiungiInterazione negozio "RSSANN80A01H501Z" "04/06/2024" "12:00"
    EMAIL "Preventivo" "Carla" "Inviato"
  = (Successo,
     [con_interazioni
        [visita; Interazione.mk "04/06/2024" "12:00" EMAIL "Preventivo" "Carla" "Inviato"]
        anna;
      con_interazioni [chiamata; firma] mario])
  ∧ CRM.aggiungiInterazione negozio "RSSANN80A01H501Z" "4/6/2024" "12:00"
      EMAIL "Preventivo" "Carla" "Inviato"
    = (FormatoNonValido, negozio).
Proof.
  assert (Hk : CRM.trovaCliente negozio "RSSANN80A01H501Z" = Z.of_nat 0)
    by reflexivity.
  assert (Hl : negozio !! 0 = Some (con_interazioni [visita] anna)) by reflexivity.
  split.
  - destruct (proj2 (proj2 (aggiungiInterazione_corretto negozio "RSSANN80A01H501Z"
                              "04/06/2024" "12:00" EMAIL "Preventivo" "Carla"
                              "Inviato")) 0 _ Hk Hl) as [_ H].
    destruct H as [E _]; [reflexivity | reflexivity |]. exact E.
  - destruct (proj2 (proj2 (aggiungiInterazione_corretto negozio "RSSANN80A01H501Z"
                              "4/6/2024" "12:00" EMAIL "Preventivo" "Carla"
                              "Inviato")) 0 _ Hk Hl) as [H _].
    apply H. left. reflexivity.
Defined.

(** ** The format of the date and of the time *)

Lemma separatore_existsb (i : nat) (l : list nat) :
  bool_decide (i ∈ l) = existsb (Nat.eqb i) l.
Proof.
  induction l as [|j l IH]; cbn [existsb].
  - apply bool_decide_eq_false_2, not_elem_of_nil.
  - destruct (Nat.eqb_spec i j) as [->|Hne]; cbn [orb].
    + apply bool_decide_eq_true_2, list_elem_of_here.
    + rewrite <- IH. apply bool_decide_ext. rewrite elem_of_cons. tauto.
Qed.

Lemma carattere_atteso (c d : ascii) :
  bool_decide (Some c = Some d) = Ascii.eqb c d.
Proof.
  destruct (Ascii.eqb_spec c d) as [->|Hne].
  - apply bool_decide_eq_true_2. reflexivity.
  - apply bool_decide_eq_false_2. congruence.
Qed.

Lemma isdigit_cifra (c : ascii) :
  CRM.isdigit c
  = bool_decide (c ∈ ["0"; "1"; "2"; "3"; "4"; "5"; "6"; "7"; "8"; "9"]%char).
Proof. destruct c as [[] [] [] [] [] [] [] []]; vm_compute; reflexivity. Qed.

(** X3.  [validaData] accepts exactly the strings of ten characters made of
    two digits, a slash, two digits, a slash and four digits, and
    [validaOra] exactly those of five characters made of two digits, a colon
    and two digits; neither looks at the value of the digits, so that the
    31st of February and the hour 99:99 pass.  A digit is one of the ten
    characters from 0 to 9. *)
Theorem validaData_forma (s : string) :
  (CRM.validaData s = true ↔
     ∃ g1 g2 m1 m2 a1 a2 a3 a4,
       s = String g1 (String g2 (String "/" (String m1 (String m2 (String "/"
             (String a1 (String a2 (String a3 (String a4 "")))))))))
       ∧ Forall (λ c, CRM.isdigit c = true) [g1; g2; m1; m2; a1; a2; a3; a4])
  ∧ (CRM.validaOra s = true ↔
       ∃ h1 h2 m1 m2,
         s = String h1 (String h2 (String ":" (String m1 (String m2 ""))))
         ∧ Forall (λ c, CRM.isdigit c = true) [h1; h2; m1; m2])
  ∧ (∀ c, CRM.isdigit c = true ↔
       c ∈ ["0"; "1"; "2"; "3"; "4"; "5"; "6"; "7"; "8"; "9"]%char)
  ∧ CRM.validaData "31/02/2024" = true
  ∧ CRM.validaOra "99:99" = true
  ∧ CRM.validaData "1/2/2024" = false
  ∧ CRM.validaData "" = false
  ∧ CRM.validaOra "9:30" = false.
Proof.
  split; [|split; [|split; [|repeat split]]];
    [| |intros c; rewrite isdigit_cifra; apply bool_decide_eq_true].
  - split.
    + destruct s as [|c0 [|c1 [|c2 [|c3 [|c4 [|c5 [|c6 [|c7 [|c8 [|c9 [|c10 r]]]]]]]]]]];
        try discriminate.
      unfold CRM.validaData.
      cbn [String.length Nat.eqb negb String.get CRM.cifre_da].
      rewrite !separatore_existsb, !carattere_atteso. cbn -[CRM.isdigit Ascii.eqb].
      destruct (Ascii.eqb_spec c2 "/") as [->|]; [|discriminate].
      destruct (Ascii.eqb_spec c5 "/") as [->|]; [|discriminate].
      cbn -[CRM.isdigit]. rewrite !andb_true_iff. intros (?&?&?&?&?&?&?&?&_).
      exists c0, c1, c3, c4, c6, c7, c8, c9. split; [reflexivity|].
      repeat constructor; assumption.
    + intros (g1&g2&m1&m2&a1&a2&a3&a4&->&H).
      repeat match goal with
             | H : Forall _ (_ :: _) |- _ => apply Forall_cons in H as [? H]
             end.
      unfold CRM.validaData.
      cbn [String.length Nat.eqb negb String.get CRM.cifre_da].
      rewrite !separatore_existsb, !carattere_atteso. cbn -[CRM.isdigit].
      repeat match goal with
             | E : CRM.isdigit _ = true |- _ => rewrite E; clear E
             end.
      reflexivity.
  - split.
    + destruct s as [|c0 [|c1 [|c2 [|c3 [|c4 [|c5 r]]]]]]; try discriminate.
      unfold CRM.validaOra.
      cbn [String.length Nat.eqb negb String.get CRM.cifre_da].
      rewrite !separatore_existsb, !carattere_atteso. cbn -[CRM.isdigit Ascii.eqb].
      destruct (Ascii.eqb_spec c2 ":") as [->|]; [|discriminate].
      cbn -[CRM.isdigit]. rewrite !andb_true_iff. intros (?&?&?&?&_).
      exists c0, c1, c3, c4. split; [reflexivity|].
      repeat constructor; assumption.
    + intros (h1&h2&m1&m2&->&H).
      repeat match goal with
             | H : Forall _ (_ :: _) |- _ => apply Forall_cons in H as [? H]
             end.
      unfold CRM.validaOra.
      cbn [String.length Nat.eqb negb String.get CRM.cifre_da].
      rewrite !separatore_existsb, !carattere_atteso. cbn -[CRM.isdigit].
      repeat match goal with
             | E : CRM.isdigit _ = true |- _ => rewrite E; clear E
             end.
      reflexivity.
Qed.

(** ** Lookup by name *)

Lemma trovaClienteNome_da_casi i (clienti : list Cliente.t) (n cg : string) :
  (CRM.trovaClienteNome_da i clienti n cg = (-1)%Z
     ∧ ∀ c, c ∈ clienti → ¬ (Cliente.nome c = n ∧ Cliente.cognome c = cg))
  ∨ (∃ j c, CRM.trovaClienteNome_da i clienti n cg = Z.of_nat (i + j)
       ∧ clienti !! j = Some c ∧ Cliente.nome c = n ∧ Cliente.cognome c = cg
       ∧ ∀ j' c', clienti !! j' = Some c' → j' < j →
                  ¬ (Cliente.nome c' = n ∧ Cliente.cognome c' = cg)).
Proof.
  revert i. induction clienti as [|c resto IH]; intros i; simpl.
  - left. split; [reflexivity|]. intros c Hc. inversion Hc.
  - destruct (String.eqb_spec (Cliente.nome c) n) as [E1|E1];
      [destruct (String.eqb_spec (Cliente.cognome c) cg) as [E2|E2]|]; simpl.
    + right. exists 0, c. rewrite Nat.add_0_r. repeat split; try done.
      intros j' c' _ Hlt. lia.
    + destruct (IH (S i)) as [[Hs Hn]|(j & c0 & Hs & Hl & Hc1 & Hc2 & Hmin)].
      * left. split; [exact Hs|].
        intros c' [->|Hin]%elem_of_cons; [tauto | apply Hn, Hin].
      * right. exists (S j), c0. repeat split; try done.
        -- rewrite Hs. f_equal. lia.
        -- intros [|j'] c' Hl' Hlt; simpl in Hl'.
           ++ injection Hl' as <-. tauto.
           ++ apply (Hmin j' c' Hl'). lia.
    + destruct (IH (S i)) as [[Hs Hn]|(j & c0 & Hs & Hl & Hc1 & Hc2 & Hmin)].
      * left. split; [exact Hs|].
        intros c' [->|Hin]%elem_of_cons; [tauto | apply Hn, Hin].
      * right. exists (S j), c0. repeat split; try done.
        -- rewrite Hs. f_equal. lia.
        -- intros [|j'] c' Hl' Hlt; simpl in Hl'.
           ++ injection Hl' as <-. tauto.
           ++ apply (Hmin j' c' Hl'). lia.
Qed.

(** X5.  [trovaCliente(nome, cognome)] returns the position of the first
    customer whose first name and last name both equal the given ones,
    compared as they are, and [-1] exactly when no customer has both; the
    result is [-1] or a position of the collection. *)
Theorem trovaClienteNome_primo (clienti : list Cliente.t) (nome cognome : string) :
  (CRM.trovaClienteNome clienti nome cognome = (-1)%Z ↔
     ∀ c, c ∈ clienti → ¬ (Cliente.nome c = nome ∧ Cliente.cognome c = cognome))
  ∧ (∀ k, CRM.trovaClienteNome clienti nome cognome = Z.of_nat k ↔
       ∃ c, clienti !! k = Some c
            ∧ Cliente.nome c = nome ∧ Cliente.cognome c = cognome
            ∧ ∀ j d, clienti !! j = Some d → j < k →
                     ¬ (Cliente.nome d = nome ∧ Cliente.cognome d = cognome))
  ∧ (CRM.trovaClienteNome clienti nome cognome = (-1)%Z
     ∨ (0 ≤ CRM.trovaClienteNome clienti nome cognome < Z.of_nat (length clienti))%Z).
Proof.
  unfold CRM.trovaClienteNome.
  destruct (trovaClienteNome_da_casi 0 clienti nome cognome)
    as [[Hs Hn]|(j & c & Hs & Hl & Hc1 & Hc2 & Hmin)]; rewrite Hs.
  - split; [tauto|]. split; [|left; reflexivity].
    intros k. split; [lia|]. intros (c & Hl & Hc1 & Hc2 & _). exfalso.
    apply (Hn c); [apply list_elem_of_lookup; eauto | tauto].
  - split; [|split].
    + split; [lia|]. intros Hn. exfalso.
      apply (Hn c); [apply list_elem_of_lookup; eauto | tauto].
    + intros k. simpl. split.
      * intros ->%Nat2Z.inj. exists c. tauto.
      * intros (c' & Hl' & Hc1' & Hc2' & Hmin'). f_equal.
        destruct (Nat.lt_trichotomy j k) as [Hlt|[->|Hlt]]; [|reflexivity|].
        -- exfalso. apply (Hmin' j c Hl Hlt). tauto.
        -- exfalso. apply (Hmin k c' Hl' Hlt). tauto.
    + right. apply lookup_lt_Some in Hl. lia.
Qed.

(** ** Adding and removing an interaction of a customer *)

(** X6.  On a customer, [aggiungiInterazione] puts the interaction at the
    end of the list, and [rimuoviInterazione] at that last position gives
    the customer back as it was; [rimuoviInterazione] at a position of the
    list shortens the list by one, and at a negative index or one past the
    end it leaves the customer as it is. *)
Theorem rimuoviInterazione_aggiungiInterazione (c : Cliente.t) (x : Interazione.t)
    (indice : Z) :
  Cliente.interazioni (Cliente.aggiungiInterazione x c)
    !! length (Cliente.interazioni c) = Some x
  ∧ Cliente.rimuoviInterazione (Z.of_nat (length (Cliente.interazioni c)))
      (Cliente.aggiungiInterazione x c) = c
  ∧ ((0 ≤ indice < Z.of_nat (length (Cliente.interazioni c)))%Z →
       S (length (Cliente.interazioni (Cliente.rimuoviInterazione indice c)))
       = length (Cliente.interazioni c)
       ∧ Cliente.interazioni (Cliente.rimuoviInterazione indice c)
         = take (Z.to_nat indice) (Cliente.interazioni c)
           ++ drop (S (Z.to_nat indice)) (Cliente.interazioni c))
  ∧ ((indice < 0 ∨ Z.of_nat (length (Cliente.interazioni c)) ≤ indice)%Z →
       Cliente.rimuoviInterazione indice c = c).
Proof.
  split; [|split; [|split]].
  - simpl. rewrite lookup_app_r by lia. rewrite Nat.sub_diag. reflexivity.
  - unfold Cliente.rimuoviInterazione. simpl. rewrite length_app. simpl.
    replace ((0 <=? Z.of_nat (length (Cliente.interazioni c)))%Z) with true
      by (symmetry; apply Z.leb_le; lia).
    replace ((Z.of_nat (length (Cliente.interazioni c))
              <? Z.of_nat (length (Cliente.interazioni c) + 1))%Z) with true
      by (symmetry; apply Z.ltb_lt; lia).
    simpl. rewrite Nat2Z.id, delete_take_drop.
    rewrite take_app_length, drop_ge, app_nil_r by (rewrite length_app; simpl; lia).
    destruct c. reflexivity.
  - intros [H0 H1]. unfold Cliente.rimuoviInterazione.
    replace ((0 <=? indice)%Z) with true by (symmetry; apply Z.leb_le; lia).
    replace ((indice <? Z.of_nat (length (Cliente.interazioni c)))%Z) with true
      by (symmetry; apply Z.ltb_lt; lia).
    simpl. split; [|apply delete_take_drop].
    rewrite length_delete by (apply lookup_lt_is_Some; lia). lia.
  - intros H. unfold Cliente.rimuoviInterazione.
    destruct (0 <=? indice)%Z eqn:E1; simpl; [|reflexivity].
    destruct (indice <? Z.of_nat (length (Cliente.interazioni c)))%Z eqn:E2;
      [|reflexivity].
    apply Z.leb_le in E1. apply Z.ltb_lt in E2. lia.
Qed.

(** ** Searching the interactions *)

Section Ricerca_interazioni.

Implicit Types (clienti : list Cliente.t) (c : Cliente.t) (x : Interazione.t)
  (t : string).

Lemma contieneStringa_interazione x t :
  Interazione.contieneStringa x t = true ↔
  sottostringa (minuscolo t) (minuscolo (Interazione.descrizione x))
  ∨ sottostringa (minuscolo t) (minuscolo (Interazione.agente x))
  ∨ sottostringa (minuscolo t) (minuscolo (Interazione.risultato x))
  ∨ sottostringa (minuscolo t) (minuscolo (Interazione.getTipoStringa x))
  ∨ sottostringa t (Interazione.data x)
  ∨ sottostringa t (Interazione.ora x).
Proof.
  rewrite <- !trovata_spec. unfold Interazione.contieneStringa.
  destruct (trovata (minuscolo (Interazione.descrizione x)) (minuscolo t)); [tauto|].
  destruct (trovata (minuscolo (Interazione.agente x)) (minuscolo t)); [tauto|].
  destruct (trovata (minuscolo (Interazione.risultato x)) (minuscolo t)); [tauto|].
  destruct (trovata (minuscolo (Interazione.getTipoStringa x)) (minuscolo t));
    [tauto|].
  destruct (trovata (Interazione.data x) t); [tauto|].
  destruct (trovata (Interazione.ora x) t); [tauto|].
  split; [discriminate|]. intros [H|[H|[H|[H|[H|H]]]]]; discriminate H.
Qed.

Lemma cercaInterazioni_di_filter c j (l : list Interazione.t) t :
  CRM.cercaInterazioni_di c j l t
  = filter (λ p : Cliente.t * nat * Interazione.t,
              Interazione.contieneStringa p.2 t = true)
      (imap (λ k x, (c, j + k + 1, x)) l).
Proof.
  revert j. induction l as [|y l IH]; intros j; [reflexivity|].
  cbn [CRM.cercaInterazioni_di]. rewrite imap_cons, filter_cons. cbn [snd].
  rewrite (IH (S j)).
  rewrite (imap_ext (λ k x, (c, S j + k + 1, x))
             ((λ k x, (c, j + k + 1, x)) ∘ S))
    by (intros k z _; simpl; do 2 f_equal; lia).
  rewrite Nat.add_0_r.
  destruct (Interazione.contieneStringa y t).
  - rewrite decide_True by reflexivity. reflexivity.
  - rewrite decide_False by discriminate. reflexivity.
Qed.

Lemma cercaInterazioni_da_filter clienti t :
  CRM.cercaInterazioni_da clienti t
  = filter (λ p : Cliente.t * nat * Interazione.t,
              Interazione.contieneStringa p.2 t = true)
      (tutte_le_interazioni clienti).
Proof.
  unfold tutte_le_interazioni. induction clienti as [|c resto IH]; [reflexivity|].
  cbn [CRM.cercaInterazioni_da]. rewrite bind_cons, filter_app, <- IH.
  rewrite cercaInterazioni_di_filter. reflexivity.
Qed.

Lemma tutte_le_interazioni_spec clienti c n x :
  (c, n, x) ∈ tutte_le_interazioni clienti ↔
  c ∈ clienti ∧ 1 ≤ n ∧ Cliente.interazioni c !! (n - 1) = Some x.
Proof.
  unfold tutte_le_interazioni. rewrite list_elem_of_bind. split.
  - intros (d & (j & y & [= -> -> ->] & Hj)%elem_of_lookup_imap & Hd).
    split; [exact Hd|]. split; [lia|].
    replace (j + 1 - 1) with j by lia. exact Hj.
  - intros (Hc & Hn & Hl). exists c. split; [|exact Hc].
    apply elem_of_lookup_imap. exists (n - 1), x. split; [|exact Hl].
    do 2 f_equal. lia.
Qed.

Lemma trovata_se_stessa (s : string) : trovata s s = true.
Proof. apply trovata_spec. exists "", "". rewrite app_vuota_r. reflexivity. Qed.

Lemma trovata_vuota (s : string) : trovata s "" = true.
Proof. apply trovata_spec. exists "", s. reflexivity. Qed.

End Ricerca_interazioni.

(** X7.  [contieneStringa] of an interaction is true exactly when the
    term, in small letters, occurs in the description, the agent, the
    outcome or the display string of the kind in small letters, or the term
    as it is occurs in the date or in the time.  [cercaInterazioni] shows,
    customer after customer and in the order of each list, exactly the
    interactions that match, each with its customer and its position
    counted from one; the display string of a kind finds every interaction
    of that kind. *)
Theorem cercaInterazioni_corretto (clienti : list Cliente.t) (t : string) :
  (∀ x, Interazione.contieneStringa x t = true ↔
     sottostringa (minuscolo t) (minuscolo (Interazione.descrizione x))
     ∨ sottostringa (minuscolo t) (minuscolo (Interazione.agente x))
     ∨ sottostringa (minuscolo t) (minuscolo (Interazione.risultato x))
     ∨ sottostringa (minuscolo t) (minuscolo (Interazione.getTipoStringa x))
     ∨ sottostringa t (Interazione.data x)
     ∨ sottostringa t (Interazione.ora x))
  ∧ (CRM.cercaInterazioni clienti t).2
    = filter (λ p : Cliente.t * nat * Interazione.t,
                Interazione.contieneStringa p.2 t = true)
        (tutte_le_interazioni clienti)
  ∧ (∀ c n x, (c, n, x) ∈ (CRM.cercaInterazioni clienti t).2 ↔
       Interazione.contieneStringa x t = true
       ∧ c ∈ clienti ∧ 1 ≤ n ∧ Cliente.interazioni c !! (n - 1) = Some x)
  ∧ (∀ x, Interazione.contieneStringa x (Interazione.getTipoStringa x) = true).
Proof.
  assert (Hfiltro : (CRM.cercaInterazioni clienti t).2
            = filter (λ p : Cliente.t * nat * Interazione.t,
                        Interazione.contieneStringa p.2 t = true)
                (tutte_le_interazioni clienti)).
  { unfold CRM.cercaInterazioni. case_bool_decide as E; simpl.
    - rewrite E. reflexivity.
    - apply cercaInterazioni_da_filter. }
  split; [intros x; apply contieneStringa_interazione|].
  split; [exact Hfiltro|]. split.
  - intros c n x. rewrite Hfiltro, list_elem_of_filter, tutte_le_interazioni_spec.
    reflexivity.
  - intros x. apply contieneStringa_interazione.
    right. right. right. left. apply trovata_spec, trovata_se_stessa.
Qed.

(** X8.  The empty search term matches every customer and every
    interaction: [cercaCliente] then shows all the customers, numbered from
    one in the order of the collection, and [cercaInterazioni] all the
    interactions. *)
Theorem ricerca_vuota (clienti : list Cliente.t) :
  (∀ c, Cliente.contieneStringa c "" = true)
  ∧ (∀ x, Interazione.contieneStringa x "" = true)
  ∧ (CRM.cercaCliente clienti "").2 = imap (λ i c, (i + 1, c)) clienti
  ∧ (CRM.cercaInterazioni clienti "").2 = tutte_le_interazioni clienti.
Proof.
  assert (Hc : ∀ c, Cliente.contieneStringa c "" = true).
  { intros c. unfold Cliente.contieneStringa. simpl minuscolo.
    rewrite trovata_vuota. reflexivity. }
  assert (Hx : ∀ x, Interazione.contieneStringa x "" = true).
  { intros x. unfold Interazione.contieneStringa. simpl minuscolo.
    rewrite trovata_vuota. reflexivity. }
  split; [exact Hc|]. split; [exact Hx|]. split.
  - unfold CRM.cercaCliente. case_bool_decide as E; simpl; [rewrite E; reflexivity|].
    clear E.
    assert (G : ∀ n, CRM.cercaCliente_da n clienti ""
                     = imap (λ i c, (n + i + 1, c)) clienti).
    { induction clienti as [|c resto IH]; intros n; [reflexivity|].
      cbn [CRM.cercaCliente_da]. rewrite Hc, imap_cons, (IH (S n)).
      rewrite Nat.add_0_r. f_equal.
      apply imap_ext. intros i d _. simpl. f_equal. lia. }
    rewrite (G 0). reflexivity.
  - unfold CRM.cercaInterazioni. case_bool_decide as E; simpl; [rewrite E; reflexivity|].
    rewrite cercaInterazioni_da_filter.
    induction (tutte_le_interazioni clienti) as [|p l IH]; [reflexivity|].
    rewrite filter_cons_True by apply Hx. rewrite IH. reflexivity.
Qed.

(** ** What a save leaves behind *)

(** X9.  [salvaDati] returns [true] exactly when both files can be opened
    for writing, and then the customer file holds the lines of the customers
    and the interaction file those of the interactions.  When one of the two
    cannot be opened it returns [false], and the file that could be opened
    is left empty, whatever it held; the file that could not be opened, and
    every other file, holds what it held.  What was in the two files before
    never shows in what a save writes. *)
Theorem salvaDati_esito (m : Mondo) (clienti : list Cliente.t) :
  (CRM.salvaDati m clienti).1
    = scrivibile m CRM.nomeFileClienti && scrivibile m CRM.nomeFileInterazioni
  ∧ (∀ q, q ≠ CRM.nomeFileClienti → q ≠ CRM.nomeFileInterazioni →
       leggi (CRM.salvaDati m clienti).2 q = leggi m q)
  ∧ (scrivibile m CRM.nomeFileClienti = true →
     scrivibile m CRM.nomeFileInterazioni = true →
       leggi (CRM.salvaDati m clienti).2 CRM.nomeFileClienti
         = Some (testoClienti clienti)
       ∧ leggi (CRM.salvaDati m clienti).2 CRM.nomeFileInterazioni
         = Some (testoTutteInterazioni clienti))
  ∧ (scrivibile m CRM.nomeFileClienti = true →
     scrivibile m CRM.nomeFileInterazioni = false →
       leggi (CRM.salvaDati m clienti).2 CRM.nomeFileClienti = Some ""
       ∧ leggi (CRM.salvaDati m clienti).2 CRM.nomeFileInterazioni
         = leggi m CRM.nomeFileInterazioni)
  ∧ (scrivibile m CRM.nomeFileClienti = false →
     scrivibile m CRM.nomeFileInterazioni = true →
       leggi (CRM.salvaDati m clienti).2 CRM.nomeFileClienti
         = leggi m CRM.nomeFileClienti
       ∧ leggi (CRM.salvaDati m clienti).2 CRM.nomeFileInterazioni = Some "")
  ∧ (scrivibile m CRM.nomeFileClienti = false →
     scrivibile m CRM.nomeFileInterazioni = false →
       leggi (CRM.salvaDati m clienti).2 CRM.nomeFileClienti
         = leggi m CRM.nomeFileClienti
       ∧ leggi (CRM.salvaDati m clienti).2 CRM.nomeFileInterazioni
         = leggi m CRM.nomeFileInterazioni).
Proof.
  unfold CRM.salvaDati. rewrite salvaClienti_testo, !app_vuota_l.
  split; [|split; [|repeat split]].
  - destruct (scrivibile m CRM.nomeFileClienti),
      (scrivibile m CRM.nomeFileInterazioni); reflexivity.
  - intros q Hc%String.eqb_neq Hi%String.eqb_neq.
    destruct (scrivibile m CRM.nomeFileClienti),
      (scrivibile m CRM.nomeFileInterazioni); simpl; rewrite ?Hc, ?Hi; reflexivity.
  - rewrite H, H0. reflexivity.
  - rewrite H, H0. reflexivity.
  - rewrite H, H0. reflexivity.
  - rewrite H, H0. reflexivity.
  - rewrite H, H0. reflexivity.
  - rewrite H, H0. reflexivity.
  - rewrite H, H0. reflexivity.
  - rewrite H, H0. reflexivity.
Qed.

(** ** Reading lines *)


(** X10.  The lines that the two [while (getline(...))] loops go through
    hold no line feed, and written back one after the other, each followed
    by a line feed, they give the stream again, with a line feed added at the
    end when the stream has characters and does not end in one: nothing of
    the file is lost or read twice.  Lines without line feed that are
    written each with a line feed are read back as they are; and the lines
    are those that [getline] yields, call after call, until it fails. *)
Theorem righe_spec (flusso : string) (ls : list string) :
  Forall (λ l, senza a_capo l = true) (CRM.righe flusso)
  ∧ unisci_righe (CRM.righe flusso) = chiusa flusso
  ∧ (Forall (λ l, senza a_capo l = true) ls → CRM.righe (unisci_righe ls) = ls)
  ∧ CRM.righe flusso
    = match CRM.getline flusso with
      | None => []
      | Some (l, resto) => l :: CRM.righe resto
      end
  ∧ (CRM.getline flusso = None ↔ flusso = "").
Proof.
  split; [apply righe_ciclo_senza; reflexivity|].
  split; [|split; [apply righe_unisci|split; [apply righe_getline|]]].
  - unfold CRM.righe. rewrite righe_ciclo_unisci. destruct flusso; reflexivity.
  - destruct flusso; simpl; split; congruence.
Qed.

Lemma righe_spec_esempio :
  CRM.righe ("a|b" +:+ CRM.nl +:+ CRM.nl +:+ "c") = ["a|b"; ""; "c"]
  ∧ CRM.righe (unisci_righe ["a|b"; ""; "c"]) = ["a|b"; ""; "c"].
Proof.
  split; [reflexivity|].
  apply (proj1 (proj2 (proj2 (righe_spec "" ["a|b"; ""; "c"])))).
  repeat constructor.
Defined.

(** ** Reading the answers *)

Section Risposte.

Lemma ignore_riga (l resto : string) :
  senza a_capo l = true → CRM.ignore (l +:+ CRM.nl +:+ resto) = resto.
Proof.
  induction l as [|c l IH]; intros H.
  - reflexivity.
  - simpl in H. apply andb_true_iff in H as [Hc Hl]. apply negb_true_iff in Hc.
    rewrite app_cons. simpl. rewrite Hc. apply IH, Hl.
Qed.

Lemma ignore_senza_a_capo (l : string) : senza a_capo l = true → CRM.ignore l = "".
Proof.
  induction l as [|c l IH]; intros H; [reflexivity|].
  simpl in H. apply andb_true_iff in H as [Hc Hl]. apply negb_true_iff in Hc.
  simpl. rewrite Hc. apply IH, Hl.
Qed.

Lemma getline_ciclo_riga (l resto linea : string) :
  senza a_capo l = true →
  CRM.getline_ciclo (l +:+ CRM.nl +:+ resto) linea = (linea +:+ l, resto).
Proof.
  revert linea. induction l as [|c l IH]; intros linea H.
  - rewrite app_vuota_r. reflexivity.
  - simpl in H. apply andb_true_iff in H as [Hc Hl]. apply negb_true_iff in Hc.
    rewrite app_cons. simpl. rewrite Hc, (IH _ Hl), accoda_app. reflexivity.
Qed.

Lemma getline_riga (l resto : string) :
  senza a_capo l = true → CRM.getline (l +:+ CRM.nl +:+ resto) = Some (l, resto).
Proof.
  intros H. unfold CRM.getline.
  rewrite (getline_ciclo_riga l resto "" H).
  destruct l; reflexivity.
Qed.

Lemma ottieniInputSicuro_riga (scartata risposta resto : string) :
  senza a_capo scartata = true → senza a_capo risposta = true →
  CRM.ottieniInputSicuro (scartata +:+ CRM.nl +:+ risposta +:+ CRM.nl +:+ resto)
  = (risposta, resto).
Proof.
  intros Hs Hr. unfold CRM.ottieniInputSicuro.
  rewrite (ignore_riga _ _ Hs), (getline_riga _ _ Hr). reflexivity.
Qed.

Lemma unisci_righe_app (l : string) (ls : list string) (resto : string) :
  unisci_righe (l :: ls) +:+ resto = l +:+ CRM.nl +:+ (unisci_righe ls +:+ resto).
Proof.
  change (unisci_righe (l :: ls)) with (l +:+ CRM.nl +:+ unisci_righe ls).
  rewrite !app_assoc_s. reflexivity.
Qed.

End Risposte.

(** X11.  [ottieniInputSicuro] throws away what is left of the current
    line of the input and returns the line after it: of two lines it is
    given, the first is lost.  So the seven prompts of [aggiungiCliente]
    use fourteen lines and take their answers from the second, the fourth
    and so on.  When the input has no line feed left, or nothing after it,
    the answer is the empty string. *)
Theorem ottieniInputSicuro_salta (clienti : list Cliente.t)
    (s1 r1 s2 r2 s3 r3 s4 r4 s5 r5 s6 r6 s7 r7 resto : string) :
  Forall (λ l, senza a_capo l = true)
    [s1; r1; s2; r2; s3; r3; s4; r4; s5; r5; s6; r6; s7; r7] →
  CRM.ottieniInputSicuro (unisci_righe [s1; r1] +:+ resto) = (r1, resto)
  ∧ CRM.ottieniInputSicuro s1 = ("", "")
  ∧ CRM.ottieniInputSicuro (s1 +:+ CRM.nl) = ("", "")
  ∧ CRM.ottieniInputSicuro (s1 +:+ CRM.nl +:+ r1) = (r1, "")
  ∧ CRM.aggiungiCliente_cin
      (unisci_righe [s1; r1; s2; r2; s3; r3; s4; r4; s5; r5; s6; r6; s7; r7]
       +:+ resto) clienti
    = (CRM.aggiungiCliente clienti r1 r2 r3 r4 r5 r6 r7, resto).
Proof.
  intros H.
  repeat match goal with
         | H : Forall _ (_ :: _) |- _ => apply Forall_cons in H as [? H]
         end.
  split; [|split; [|split; [|split]]].
  - rewrite !unisci_righe_app. change (unisci_righe [] +:+ resto) with resto.
    apply ottieniInputSicuro_riga; assumption.
  - unfold CRM.ottieniInputSicuro. rewrite ignore_senza_a_capo by assumption.
    reflexivity.
  - unfold CRM.ottieniInputSicuro.
    rewrite <- (app_vuota_r (s1 +:+ CRM.nl)), app_assoc_s.
    rewrite ignore_riga by assumption. reflexivity.
  - unfold CRM.ottieniInputSicuro. rewrite ignore_riga by assumption.
    unfold CRM.getline. destruct r1 as [|c r1]; [reflexivity|].
    f_equal.
    assert (G : ∀ (l linea : string), senza a_capo l = true →
                CRM.getline_ciclo l linea = (linea +:+ l, "")).
    { clear. induction l as [|a l IH]; intros linea Hl.
      - rewrite app_vuota_r. reflexivity.
      - simpl in Hl. apply andb_true_iff in Hl as [Ha Hl].
        apply negb_true_iff in Ha. simpl. rewrite Ha, (IH _ Hl), accoda_app.
        reflexivity. }
    rewrite G by assumption. reflexivity.
  - unfold CRM.aggiungiCliente_cin.
    rewrite !unisci_righe_app. change (unisci_righe [] +:+ resto) with resto.
    do 7 (rewrite ottieniInputSicuro_riga by assumption; cbv beta iota).
    reflexivity.
Qed.

Lemma ottieniInputSicuro_esempio :
  CRM.aggiungiCliente_cin
    (unisci_righe [""; "Anna"; "Rossi"; "Rossi"; "a@x.it"; "a@x.it"; "000"; "000";
                   "Via Roma"; "Via Roma"; "RSSANN80A01H501Z"; "RSSANN80A01H501Z";
                   "01/01/1980"; "01/01/1980"] +:+ "7") []
  = (Successo,
     [Cliente.nuovo "Anna" "Rossi" "a@x.it" "000" "Via Roma" "RSSANN80A01H501Z"
        "01/01/1980"],
     "7").
Proof.
  destruct (ottieniInputSicuro_salta []
              "" "Anna" "Rossi" "Rossi" "a@x.it" "a@x.it" "000" "000"
              "Via Roma" "Via Roma" "RSSANN80A01H501Z" "RSSANN80A01H501Z"
              "01/01/1980" "01/01/1980" "7")
    as (_ & _ & _ & _ & E); [repeat constructor|].
  rewrite E. reflexivity.
Defined.

(** ** What a load gives, and when a save can be loaded back *)

Section Caricati.

Implicit Types (clienti : list Cliente.t) (c : Cliente.t) (linea : string).

Lemma unisci_senza a (dati : list string) :
  senza a (unisci dati) = true → Forall (λ d, senza a d = true) dati.
Proof.
  induction dati as [|d resto IH]; intros H; [constructor|].
  destruct resto as [|d' resto'].
  - repeat constructor. exact H.
  - change (unisci (d :: d' :: resto')) with (d +:+ "|" +:+ unisci (d' :: resto')) in H.
    rewrite !senza_app in H. apply andb_true_iff in H as [Hd H].
    apply andb_true_iff in H as [_ H]. constructor; [exact Hd | exact (IH H)].
Qed.

Lemma campi_puliti linea :
  senza a_capo linea = true →
  Forall (λ d, campo_pulito d = true) (CRM.campi linea).
Proof.
  intros H. rewrite <- (unisci_campi linea) in H. apply unisci_senza in H.
  pose proof (campi_senza_barra linea) as Hb.
  apply Forall_forall. intros d Hd. unfold campo_pulito.
  rewrite (proj1 (Forall_forall _ _) Hb d Hd), (proj1 (Forall_forall _ _) H d Hd).
  reflexivity.
Qed.

Lemma clienteDiRiga_pulito linea c :
  senza a_capo linea = true → clienteDiRiga linea = Some c →
  cliente_pulito c = true.
Proof.
  intros H%campi_puliti (d0&d1&d2&d3&d4&d5&d6&E&->)%clienteDiRiga_campi.
  rewrite E in H.
  repeat match goal with
         | H : Forall _ (_ :: _) |- _ => apply Forall_cons in H as [? H]
         end.
  unfold cliente_pulito. simpl.
  repeat match goal with
         | E : campo_pulito _ = true |- _ => rewrite E; clear E
         end.
  reflexivity.
Qed.

Lemma decodificaTipo_pulito (s : string) (d1 d2 d4 d5 d6 : string) :
  campo_pulito d1 = true → campo_pulito d2 = true → campo_pulito d4 = true →
  campo_pulito d5 = true → campo_pulito d6 = true →
  interazione_pulita (Interazione.mk d1 d2 (CRM.decodificaTipo s) d4 d5 d6) = true.
Proof.
  intros H1 H2 H4 H5 H6. unfold interazione_pulita. simpl.
  rewrite H1, H2, H4, H5, H6. reflexivity.
Qed.

Lemma interazioneDiRiga_pulita linea cf (x : Interazione.t) :
  senza a_capo linea = true → interazioneDiRiga linea = Some (cf, x) →
  interazione_pulita x = true.
Proof.
  intros H%campi_puliti. unfold interazioneDiRiga.
  destruct (CRM.campi linea) as [|d0 [|d1 [|d2 [|d3 [|d4 [|d5 [|d6 [|? ?]]]]]]]];
    try discriminate.
  intros [= <- <-].
  repeat match goal with
         | H : Forall _ (_ :: _) |- _ => apply Forall_cons in H as [? H]
         end.
  apply decodificaTipo_pulito; assumption.
Qed.

Lemma con_interazioni_pulito (l : list Interazione.t) c :
  cliente_pulito c = true → Forall (λ x, interazione_pulita x = true) l →
  cliente_pulito (con_interazioni l c) = true.
Proof.
  unfold cliente_pulito. intros H Hl. apply andb_true_iff in H as [H Hi].
  simpl. rewrite H. simpl. rewrite forallb_app, Hi. simpl.
  apply forallb_forall. intros x Hx%list_elem_of_In.
  exact (proj1 (Forall_forall _ _) Hl x Hx).
Qed.

Lemma righe_senza_a_capo (flusso linea : string) :
  linea ∈ CRM.righe flusso → senza a_capo linea = true.
Proof.
  intros H. pose proof (righe_ciclo_senza flusso "" eq_refl) as F.
  exact (proj1 (Forall_forall _ _) F linea H).
Qed.

(** The collection that a load builds from any two files can be saved
    without harm: no string in it holds the separator or a line feed. *)
Lemma caricati_puliti (fileClienti fileInterazioni : string) :
  Forall (λ c, cliente_pulito c = true)
    (fold_left CRM.leggiInterazione (CRM.righe fileInterazioni)
       (omap clienteDiRiga (CRM.righe fileClienti))).
Proof.
  apply Forall_lookup. intros k c. rewrite leggiInterazione_righe.
  destruct (omap clienteDiRiga (CRM.righe fileClienti) !! k) as [c0|] eqn:E;
    [|discriminate].
  intros [= <-]. apply con_interazioni_pulito.
  - apply list_elem_of_lookup_2, list_elem_of_omap in E as (linea & Hl & Hc).
    exact (clienteDiRiga_pulito linea c0 (righe_senza_a_capo _ _ Hl) Hc).
  - apply Forall_forall. intros x. unfold interazioni_di.
    intros ([cf y] & -> & [_ Hp]%list_elem_of_filter)%list_elem_of_fmap.
    apply list_elem_of_omap in Hp as (linea & Hl & Hi).
    exact (interazioneDiRiga_pulita linea cf y (righe_senza_a_capo _ _ Hl) Hi).
Qed.

(** In it, a customer that has interactions is the first with its tax
    code. *)
Lemma caricati_titolari (fileClienti fileInterazioni : string) :
  titolari_primi
    (fold_left CRM.leggiInterazione (CRM.righe fileInterazioni)
       (omap clienteDiRiga (CRM.righe fileClienti))).
Proof.
  intros k c. rewrite leggiInterazione_righe, trovaCliente_leggiInterazione.
  destruct (omap clienteDiRiga (CRM.righe fileClienti) !! k) as [c0|] eqn:E;
    [|discriminate].
  intros [= <-] Hne. simpl in *.
  rewrite (clienteDiRiga_vuoto (CRM.righe fileClienti) c0) in Hne
    by (apply list_elem_of_lookup; eauto).
  simpl in Hne. unfold interazioni_di in Hne.
  destruct (filter _ _) as [|[cf y] l] eqn:F; [done|].
  assert (Hin : (cf, y) ∈ (cf, y) :: l) by apply list_elem_of_here.
  rewrite <- F in Hin. apply list_elem_of_filter in Hin as [Hp _]. simpl in Hp.
  pose proof Hp as (c1 & Hl1 & Hc1 & _)%trovaCliente_primo.
  assert (c1 = c0) as -> by congruence. rewrite Hc1. exact Hp.
Qed.

Lemma filter_coppie_codice (f : string → Z) (z : Z) cf (l : list Interazione.t) :
  snd <$> filter (λ p : string * Interazione.t, f p.1 = z) ((λ i, (cf, i)) <$> l)
  = if decide (f cf = z) then l else [].
Proof.
  induction l as [|i l IH]; [case_decide; reflexivity|].
  rewrite fmap_cons, filter_cons. cbn [fst].
  destruct (decide (f cf = z)); [|exact IH].
  rewrite fmap_cons, IH. reflexivity.
Qed.

(** When the customers with interactions are the first holders of their
    codes, the pairs whose code is found at position [k] are the
    interactions of the customer at position [k]. *)
Lemma filter_coppie_posizione (f : string → Z) (l : list Cliente.t) (dal k : nat) :
  (∀ j c, l !! j = Some c → Cliente.interazioni c ≠ [] →
          f (Cliente.codiceFiscale c) = Z.of_nat (dal + j)) →
  snd <$> filter (λ p : string * Interazione.t, f p.1 = Z.of_nat k) (coppie_di l)
  = if decide (dal ≤ k)
    then from_option Cliente.interazioni [] (l !! (k - dal))
    else [].
Proof.
  unfold coppie_di. revert dal. induction l as [|c r IH]; intros dal Hf.
  - case_decide; reflexivity.
  - rewrite bind_cons, filter_app, fmap_app. cbv beta.
    rewrite (filter_coppie_codice f (Z.of_nat k)).
    rewrite (IH (S dal))
      by (intros j d Hj Hd; rewrite (Hf (S j) d Hj Hd); f_equal; lia).
    assert (Hc : Cliente.interazioni c ≠ [] →
                 f (Cliente.codiceFiscale c) = Z.of_nat dal).
    { intros Hne. rewrite (Hf 0 c eq_refl Hne). f_equal. lia. }
    destruct (decide (dal ≤ k)) as [Hle|Hgt].
    + destruct (decide (dal = k)) as [->|Hne].
      * rewrite Nat.sub_diag. simpl.
        rewrite (decide_False (P := S k ≤ k)) by lia. rewrite app_nil_r.
        destruct (Cliente.interazioni c) as [|x xs] eqn:E;
          [case_decide; reflexivity|].
        rewrite decide_True by (apply Hc; discriminate). reflexivity.
      * rewrite (decide_True (P := S dal ≤ k)) by lia.
        replace (k - dal) with (S (k - S dal)) by lia. simpl.
        destruct (Cliente.interazioni c) as [|x xs] eqn:E;
          [case_decide; reflexivity|].
        rewrite decide_False; [reflexivity|].
        rewrite Hc by discriminate. intros ?%Nat2Z.inj. lia.
    + rewrite (decide_False (P := S dal ≤ k)) by lia. rewrite app_nil_r.
      destruct (Cliente.interazioni c) as [|x xs] eqn:E;
        [case_decide; reflexivity|].
      rewrite decide_False; [reflexivity|].
      rewrite Hc by discriminate. intros ?%Nat2Z.inj. lia.
Qed.

Lemma carica_salvate_titolari clienti :
  titolari_primi clienti →
  Forall (λ c, cliente_pulito c = true) clienti →
  fold_left CRM.leggiInterazione (CRM.righe (testoTutteInterazioni clienti))
    (omap clienteDiRiga (CRM.righe (testoClienti clienti)))
  = clienti.
Proof.
  intros Ht Hp. apply list_eq. intros k.
  rewrite leggiInterazione_righe.
  rewrite (righe_testoClienti _ Hp), (clienteDiRiga_righe _ Hp).
  rewrite (righe_testoTutteInterazioni _ Hp), (interazioneDiRiga_tutte _ Hp).
  rewrite list_lookup_fmap. destruct (clienti !! k) as [c|] eqn:Hl; [|reflexivity].
  simpl. f_equal. rewrite <- (con_interazioni_anagrafica c) at 2. f_equal.
  unfold interazioni_di.
  rewrite (list_filter_iff
             (λ p, CRM.trovaCliente (anagrafica <$> clienti) p.1 = Z.of_nat k)
             (λ p, CRM.trovaCliente clienti p.1 = Z.of_nat k))
    by (intros p; unfold CRM.trovaCliente;
        rewrite (scansione_codici 0 _ clienti) by apply anagrafica_codici;
        reflexivity).
  rewrite (filter_coppie_posizione (CRM.trovaCliente clienti) clienti 0 k)
    by (intros j d Hj Hd; exact (Ht j d Hj Hd)).
  rewrite decide_True by lia. rewrite Nat.sub_0_r, Hl. reflexivity.
Qed.

End Caricati.

(** X12.  Whatever the two files hold, the collection that a load builds
    from them does not depend on the collection that was in memory, holds no
    string with the separator or a line feed in it, and has interactions
    only under customers that are the first with their tax code: a
    customer whose tax code an earlier customer has is loaded without
    interactions. *)
Theorem caricaDati_normale (m : Mondo) (vecchi : list Cliente.t)
    (fileClienti fileInterazioni : string) :
  leggi m CRM.nomeFileClienti = Some fileClienti →
  leggi m CRM.nomeFileInterazioni = Some fileInterazioni →
  (∀ altri, CRM.caricaDati m altri = CRM.caricaDati m vecchi)
  ∧ Forall (λ c, cliente_pulito c = true) (CRM.caricaDati m vecchi).2
  ∧ titolari_primi (CRM.caricaDati m vecchi).2
  ∧ (∀ k j c d, (CRM.caricaDati m vecchi).2 !! j = Some d →
       (CRM.caricaDati m vecchi).2 !! k = Some c → j < k →
       Cliente.codiceFiscale d = Cliente.codiceFiscale c →
       Cliente.interazioni c = []).
Proof.
  intros Hc Hi.
  assert (Ht : titolari_primi (CRM.caricaDati m vecchi).2)
    by (rewrite (caricaDati_letti m vecchi _ _ Hc Hi); apply caricati_titolari).
  split; [|split; [|split; [exact Ht|]]].
  - intros altri. rewrite !(caricaDati_letti m _ _ _ Hc Hi). reflexivity.
  - rewrite (caricaDati_letti m vecchi _ _ Hc Hi). apply caricati_puliti.
  - intros k j c d Hj Hk Hlt Hcf.
    destruct (Cliente.interazioni c) as [|x l] eqn:E; [reflexivity|]. exfalso.
    assert (Hne : Cliente.interazioni c ≠ []) by (rewrite E; discriminate).
    pose proof (Ht k c Hk Hne) as (c' & _ & _ & Hmin)%trovaCliente_primo.
    exact (Hmin j d Hj Hlt Hcf).
Qed.

Lemma caricaDati_normale_esempio :
  CRM.caricaDati (mondo_con file_codice_ripetuto file_tre_interazioni) [mario]
  = (true,
     [con_interazioni [visita] anna;
      Cliente.nuovo "Anna" "Russo" "r@x.it" "333" "Via Milano" "RSSANN80A01H501Z"
        "01/01/1980"])
  ∧ titolari_primi
      (CRM.caricaDati (mondo_con file_codice_ripetuto file_tre_interazioni) [mario]).2.
Proof.
  split; [vm_compute; reflexivity|].
  exact (proj1 (proj2 (proj2
    (caricaDati_normale (mondo_con file_codice_ripetuto file_tre_interazioni) [mario]
       file_codice_ripetuto file_tre_interazioni eq_refl eq_refl)))).
Defined.

(** X13.  When both files can be opened for writing, a save followed by a
    load gives back the collection that was saved exactly when no string in
    it holds the separator or a line feed and every customer that has
    interactions is the first with its tax code.  Tax codes may repeat, as
    long as the later holders have no interactions. *)
Theorem salva_carica_esatto (m : Mondo) (clienti vecchi : list Cliente.t) :
  scrivibile m CRM.nomeFileClienti = true →
  scrivibile m CRM.nomeFileInterazioni = true →
  (∃ m', CRM.salvaDati m clienti = (true, m')
         ∧ CRM.caricaDati m' vecchi = (true, clienti))
  ↔ titolari_primi clienti ∧ Forall (λ c, cliente_pulito c = true) clienti.
Proof.
  intros Hc Hi.
  destruct (salvaDati_scritto m clienti Hc Hi) as (m1 & Hs & Lc & Li).
  split.
  - intros (m' & Hs' & Hl). rewrite Hs in Hs'. injection Hs' as <-.
    rewrite (caricaDati_letti m1 vecchi _ _ Lc Li) in Hl. injection Hl as Hl.
    split; rewrite <- Hl; [apply caricati_titolari | apply caricati_puliti].
  - intros [Ht Hp]. exists m1. split; [exact Hs|].
    rewrite (caricaDati_letti m1 vecchi _ _ Lc Li).
    rewrite (carica_salvate_titolari clienti Ht Hp). reflexivity.
Qed.

Lemma salva_carica_esatto_esempio :
  (∃ m', CRM.salvaDati mondo_vuoto negozio_con_ripetuto = (true, m')
         ∧ CRM.caricaDati m' [] = (true, negozio_con_ripetuto))
  ∧ ¬ codici_distinti negozio_con_ripetuto.
Proof.
  split.
  - apply (salva_carica_esatto mondo_vuoto negozio_con_ripetuto [] eq_refl eq_refl).
    split; [|repeat constructor].
    intros [|[|[|k]]] c [= <-] Hne; try reflexivity; try discriminate.
    exfalso. apply Hne. reflexivity.
  - unfold codici_distinti. simpl. intros H.
    apply NoDup_cons in H as [H _]. apply H, list_elem_of_here.
Defined.

(** X14.  Whatever the two files hold, when they can also be written, the
    collection that a load builds from them is saved and loaded back
    unchanged: after one load, saving and loading changes nothing
    more. *)
Theorem carica_salva_carica (m : Mondo) (vecchi : list Cliente.t)
    (fileClienti fileInterazioni : string) :
  leggi m CRM.nomeFileClienti = Some fileClienti →
  leggi m CRM.nomeFileInterazioni = Some fileInterazioni →
  scrivibile m CRM.nomeFileClienti = true →
  scrivibile m CRM.nomeFileInterazioni = true →
  ∃ m', CRM.salvaDati m (CRM.caricaDati m vecchi).2 = (true, m')
        ∧ ∀ altri, CRM.caricaDati m' altri = CRM.caricaDati m vecchi.
Proof.
  intros Lc Li Hc Hi. rewrite (caricaDati_letti m vecchi _ _ Lc Li). simpl.
  set (caricati := fold_left CRM.leggiInterazione (CRM.righe fileInterazioni)
                     (omap clienteDiRiga (CRM.righe fileClienti))).
  destruct (salvaDati_scritto m caricati Hc Hi) as (m' & Hs & Lc' & Li').
  exists m'. split; [exact Hs|]. intros altri.
  rewrite (caricaDati_letti m' altri _ _ Lc' Li').
  rewrite (carica_salvate_titolari caricati
             (caricati_titolari fileClienti fileInterazioni)
             (caricati_puliti fileClienti fileInterazioni)).
  reflexivity.
Qed.

Lemma carica_salva_carica_esempio :
  ∃ m',
    CRM.salvaDati (mondo_con file_codice_ripetuto file_tre_interazioni)
      (CRM.caricaDati (mondo_con file_codice_ripetuto file_tre_interazioni) []).2
    = (true, m')
    ∧ ∀ altri,
        CRM.caricaDati m' altri
        = CRM.caricaDati (mondo_con file_codice_ripetuto file_tre_interazioni) [].
Proof.
  exact (carica_salva_carica (mondo_con file_codice_ripetuto file_tre_interazioni) []
           file_codice_ripetuto file_tre_interazioni
           eq_refl eq_refl eq_refl eq_refl).
Defined.

(** ** Adding and then looking up; modifying twice *)

Section Composizione.

Implicit Types (clienti : list Cliente.t) (c : Cliente.t) (cf : string).

Lemma trovaCliente_app_nuovo clienti c :
  (∀ d, d ∈ clienti → Cliente.codiceFiscale d ≠ Cliente.codiceFiscale c) →
  CRM.trovaCliente (clienti ++ [c]) (Cliente.codiceFiscale c)
  = Z.of_nat (length clienti).
Proof.
  intros Hn. apply trovaCliente_primo. exists c.
  split; [rewrite lookup_app_r, Nat.sub_diag by lia; reflexivity|].
  split; [reflexivity|].
  intros j d Hj Hlt. rewrite lookup_app_l in Hj by exact Hlt.
  apply Hn, list_elem_of_lookup. eauto.
Qed.

Lemma trovaCliente_app_altro clienti c cf :
  Cliente.codiceFiscale c ≠ cf →
  CRM.trovaCliente (clienti ++ [c]) cf = CRM.trovaCliente clienti cf.
Proof.
  intros Hne. unfold CRM.trovaCliente at 2.
  destruct (scansione_casi 0 clienti cf) as [[Hs Hn]|(j & d & Hs & Hl & Hd & Hmin)];
    rewrite Hs.
  - apply trovaCliente_assente.
    intros d [Hd| ->%list_elem_of_singleton]%elem_of_app; [apply Hn, Hd | exact Hne].
  - simpl. apply trovaCliente_primo. exists d.
    split; [apply lookup_app_l_Some, Hl|]. split; [exact Hd|].
    intros j' d' Hj' Hlt. apply (Hmin j' d'); [|exact Hlt].
    rewrite lookup_app_l in Hj'; [exact Hj'|].
    apply lookup_lt_Some in Hl. lia.
Qed.

Lemma aggiornato_due_volte (vecchio nuovo : string) :
  aggiornato (aggiornato vecchio nuovo) nuovo = aggiornato vecchio nuovo.
Proof. unfold aggiornato. destruct (vuota nuovo); reflexivity. Qed.

(** The customer that [modificaCliente] leaves at the place of [c]. *)
Lemma modificaCliente_trovato clienti cf n cg e t i dn k c :
  CRM.trovaCliente clienti cf = Z.of_nat k → clienti !! k = Some c →
  CRM.modificaCliente clienti cf n cg e t i dn
  = (Successo,
     <[k := Cliente.mk (aggiornato (Cliente.nome c) n)
              (aggiornato (Cliente.cognome c) cg)
              (aggiornato (Cliente.email c) e)
              (aggiornato (Cliente.telefono c) t)
              (aggiornato (Cliente.indirizzo c) i)
              (Cliente.codiceFiscale c)
              (aggiornato (Cliente.dataNascita c) dn)
              (Cliente.interazioni c)]> clienti).
Proof.
  intros Hk Hl. unfold CRM.modificaCliente.
  rewrite bool_decide_eq_false_2
    by (intros ->; rewrite lookup_nil in Hl; discriminate).
  rewrite controllaEsistenzaCliente_trovaCliente, Hk.
  destruct (Z.eqb_spec (Z.of_nat k) (-1)) as [?|_]; [lia|].
  rewrite Nat2Z.id. f_equal.
  apply list_eq. intros j. destruct (decide (k = j)) as [<-|Hne].
  - rewrite list_lookup_insert_eq by (eapply lookup_lt_Some; eauto).
    unfold aggiornato.
    destruct (vuota n), (vuota cg), (vuota e), (vuota t), (vuota i), (vuota dn);
      simpl; rewrite ?list_lookup_alter_eq, Hl; destruct c; reflexivity.
  - rewrite list_lookup_insert_ne by done.
    destruct (vuota n), (vuota cg), (vuota e), (vuota t), (vuota i), (vuota dn);
      simpl; rewrite ?list_lookup_alter_ne by done; reflexivity.
Qed.

End Composizione.

(** X15.  [aggiungiCliente] succeeds exactly when [trovaCliente] does not
    find the tax code, and reports DuplicateKey otherwise.  After it
    succeeded, [trovaCliente] finds the tax code at the last position of the
    new collection, and every other tax code where it was found before, or
    not at all as before; a second [aggiungiCliente] with the same tax code
    reports DuplicateKey. *)
Theorem aggiungiCliente_poi_trova (clienti : list Cliente.t)
    (nome cognome email telefono indirizzo codiceFiscale dataNascita : string) :
  let esito :=
    CRM.aggiungiCliente clienti nome cognome email telefono indirizzo codiceFiscale
      dataNascita in
  (esito.1 = Successo ↔ CRM.trovaCliente clienti codiceFiscale = (-1)%Z)
  ∧ (esito.1 = DuplicateKey ↔ CRM.trovaCliente clienti codiceFiscale ≠ (-1)%Z)
  ∧ (esito.1 = Successo →
       CRM.trovaCliente esito.2 codiceFiscale = Z.of_nat (length clienti)
       ∧ (∀ cf, cf ≠ codiceFiscale →
            CRM.trovaCliente esito.2 cf = CRM.trovaCliente clienti cf)
       ∧ ∀ n cg e t i dn,
           CRM.aggiungiCliente esito.2 n cg e t i codiceFiscale dn
           = (DuplicateKey, esito.2)).
Proof.
  unfold CRM.aggiungiCliente.
  destruct (Z.eqb_spec (CRM.trovaCliente clienti codiceFiscale) (-1)) as [E|E];
    simpl.
  - split; [tauto|]. split; [split; [discriminate | tauto]|]. intros _.
    pose proof (proj1 (trovaCliente_assente clienti codiceFiscale) E) as Hn.
    pose proof (trovaCliente_app_nuovo clienti
                  (Cliente.nuovo nome cognome email telefono indirizzo
                     codiceFiscale dataNascita) Hn) as Hnuovo.
    simpl in Hnuovo. split; [exact Hnuovo|]. split.
    + intros cf Hcf. apply trovaCliente_app_altro. simpl. congruence.
    + intros n cg e t i dn. unfold CRM.aggiungiCliente. rewrite Hnuovo.
      destruct (Z.eqb_spec (Z.of_nat (length clienti)) (-1)) as [?|_]; [lia|].
      reflexivity.
  - split; [split; [discriminate | tauto]|]. split; [tauto|]. discriminate.
Qed.

(** X16.  [modificaCliente] reports "no customer" on an empty collection
    and NotFound when no customer has the tax code, and changes nothing.
    With six empty answers it succeeds and changes nothing; and giving the
    same answers a second time changes nothing more. *)
Theorem modificaCliente_composta (clienti : list Cliente.t)
    (codiceFiscale n cg e t i dn : string) :
  (clienti = [] →
     CRM.modificaCliente clienti codiceFiscale n cg e t i dn = (NessunCliente, []))
  ∧ (clienti ≠ [] →
     (∀ c, c ∈ clienti → Cliente.codiceFiscale c ≠ codiceFiscale) →
     CRM.modificaCliente clienti codiceFiscale n cg e t i dn = (NotFound, clienti))
  ∧ ((∃ c, c ∈ clienti ∧ Cliente.codiceFiscale c = codiceFiscale) →
     CRM.modificaCliente clienti codiceFiscale "" "" "" "" "" ""
     = (Successo, clienti)
     ∧ CRM.modificaCliente
         (CRM.modificaCliente clienti codiceFiscale n cg e t i dn).2
         codiceFiscale n cg e t i dn
       = CRM.modificaCliente clienti codiceFiscale n cg e t i dn).
Proof.
  split; [intros ->; reflexivity|]. split.
  - intros Hne Hn%trovaCliente_assente. unfold CRM.modificaCliente.
    rewrite bool_decide_eq_false_2 by exact Hne.
    rewrite controllaEsistenzaCliente_trovaCliente, Hn. reflexivity.
  - intros [k Hk]%trovaCliente_presente.
    pose proof Hk as (c & Hl & Hc & _)%trovaCliente_primo. split.
    + rewrite (modificaCliente_trovato _ _ _ _ _ _ _ _ k c Hk Hl).
      unfold aggiornato. simpl. f_equal. apply list_insert_id.
      rewrite Hl. destruct c. reflexivity.
    + rewrite (modificaCliente_trovato _ _ _ _ _ _ _ _ k c Hk Hl). simpl.
      set (c' := Cliente.mk _ _ _ _ _ _ _ _).
      assert (Hl' : <[k := c']> clienti !! k = Some c')
        by (apply list_lookup_insert_eq; eapply lookup_lt_Some; eauto).
      assert (Hk' : CRM.trovaCliente (<[k := c']> clienti) codiceFiscale = Z.of_nat k).
      { rewrite <- Hk. apply scansione_codici.
        rewrite list_fmap_insert. apply list_insert_id.
        rewrite list_lookup_fmap, Hl. reflexivity. }
      rewrite (modificaCliente_trovato _ _ _ _ _ _ _ _ k c' Hk' Hl').
      rewrite list_insert_insert_eq. unfold c'. simpl.
      rewrite !aggiornato_due_volte. reflexivity.
Qed.
